(** * btoa: binary file to assembly source converter (main.c)

    A shallow embedding of [main.c] and the properties of its dialect table,
    its identifier derivation, its emitter ([convert]) and the handle
    management of [main].

    Conventions of the embedding.
    - A C string is the [string] of its characters before the terminating
      NUL.
    - [unsigned char] data is [Byte.byte]; [size_t] is a [Z] reduced modulo
      [2 ^ size_bits] after every increment; [int] results are [Z].
    - An input [FILE *] is the script of what successive [fread] calls
      deliver; an output [FILE *] is the log of the [fprintf] calls that
      succeeded together with the number of calls the device still accepts.
    - The global [args] (an alias of [argv]) is passed explicitly. *)

From Stdlib Require Import ZArith NArith List String Ascii Bool Lia.
From Stdlib.Strings Require Import Byte.
From Stdlib Require Import DecimalString ZifyNat.
Import ListNotations.

Local Open Scope string_scope.
Local Open Scope list_scope.
Local Open Scope Z_scope.

(** [lia] with division and remainder by constants. *)
Ltac Zify.zify_post_hook ::= Z.div_mod_to_equations.

(** ** Constants of main.c *)

Definition PROG_FILENAME_IDX : nat := 0.
Definition ARCH_NAME_IDX : nat := 1.
Definition IN_FILENAME_IDX : nat := 2.
Definition OUT_FILENAME_IDX : nat := 3.

Definition ELEMS_PER_LINE : Z := 8.

(** Width of [size_t]; [main] prints the counter with [%lu]. *)
Definition size_bits : Z := 64.
Definition size_modulus : Z := 2 ^ size_bits.

(** The post-increment of the [size_t] counter. *)
Definition size_incr (c : Z) : Z := (c + 1) mod size_modulus.

(** Characters used by the formats. *)
Definition LF : ascii := "010"%char.
Definition TAB : ascii := "009"%char.
Definition nl : string := String LF EmptyString.
Definition tab : string := String TAB EmptyString.

(** ** The dialect table *)

Record lang_spec : Type := {
  name : string;
  def : string;
  diff : string;
  glob_pre : string;
  glob_post : string
}.

Definition nasm_spec : lang_spec :=
  {| name := "nasm"; def := "db"; diff := "dd $-";
     glob_pre := "[GLOBAL "; glob_post := "]" |}.
Definition fasm_spec : lang_spec :=
  {| name := "fasm"; def := "db"; diff := "dd $-";
     glob_pre := "global "; glob_post := "" |}.
Definition as_spec : lang_spec :=
  {| name := "as"; def := ".byte"; diff := ".long .-";
     glob_pre := ".globl "; glob_post := "" |}.

(** [lang_specs[]]; the end of the list stands for the [{NULL}] sentinel at
    which [lang_specs_foreach] stops. *)
Definition lang_specs : list lang_spec := [nasm_spec; fasm_spec; as_spec].

(** [strcmp]: the sign of the first difference, characters compared as
    [unsigned char]; a string that ends first compares below (its NUL is
    smaller than any character). *)
Fixpoint strcmp (a b : string) : Z :=
  match a, b with
  | EmptyString, EmptyString => 0
  | EmptyString, String _ _ => -1
  | String _ _, EmptyString => 1
  | String c a', String d b' =>
      match N.compare (N_of_ascii c) (N_of_ascii d) with
      | Lt => -1
      | Gt => 1
      | Eq => strcmp a' b'
      end
  end.

(** The loop of [lookup_lang_spec] over the table from a given entry on. *)
Fixpoint lookup_from (table : list lang_spec) (nm : string)
  : option lang_spec :=
  match table with
  | [] => None
  | lang :: rest =>
      if 0 =? strcmp (name lang) nm then Some lang else lookup_from rest nm
  end.

Definition lookup_lang_spec (nm : string) : option lang_spec :=
  lookup_from lang_specs nm.

(** ** str_repl_char *)

(** Replaces every [old] by [new]; returns the number of replacements and
    the string as it is left in place.  The string left is read with [new]
    other than NUL: a NUL written into it would end the C string there. *)
Fixpoint str_repl_char (str : string) (old new : ascii) : Z * string :=
  match str with
  | EmptyString => (0, EmptyString)
  | String c rest =>
      let (ret, rest') := str_repl_char rest old new in
      if Ascii.eqb c old then (ret + 1, String new rest')
      else (ret, String c rest')
  end.

(** ** A small printf *)

Inductive directive : Type :=
| Lit (s : string)     (* ordinary characters *)
| Pct_s                (* %s *)
| Pct_x.               (* %x *)

Definition format : Type := list directive.

Inductive arg : Type :=
| AStr (s : string)
| AUInt (n : N).

Definition hex_digit (d : N) : ascii :=
  match d with
  | 0%N => "0" | 1%N => "1" | 2%N => "2" | 3%N => "3"
  | 4%N => "4" | 5%N => "5" | 6%N => "6" | 7%N => "7"
  | 8%N => "8" | 9%N => "9" | 10%N => "a" | 11%N => "b"
  | 12%N => "c" | 13%N => "d" | 14%N => "e" | _ => "f"
  end%char.

(** The digits of [n] in base 16, least significant first into [acc]; stops
    at the last non-zero digit, so nothing is padded.  [fuel] bounds the
    number of digits (8 for a 32-bit [unsigned int]). *)
Fixpoint hex_digits (fuel : nat) (n : N) (acc : string) : string :=
  match fuel with
  | O => acc
  | S fuel' =>
      let acc' := String (hex_digit (n mod 16)) acc in
      if (n / 16 =? 0)%N then acc' else hex_digits fuel' (n / 16)%N acc'
  end.

(** [%x] applied to an [unsigned int]. *)
Definition render_x (n : N) : string := hex_digits 8 (n mod 2 ^ 32)%N "".

Fixpoint sprintf (f : format) (args : list arg) : string :=
  match f with
  | [] => ""
  | Lit s :: f' => (s ++ sprintf f' args)%string
  | Pct_s :: f' =>
      match args with
      | AStr s :: args' => (s ++ sprintf f' args')%string
      | _ :: args' => sprintf f' args'
      | [] => sprintf f' []
      end
  | Pct_x :: f' =>
      match args with
      | AUInt n :: args' => (render_x n ++ sprintf f' args')%string
      | _ :: args' => sprintf f' args'
      | [] => sprintf f' []
      end
  end.

(** The format strings of [convert]. *)
Definition fmt_export : format :=            (* "%s%s_file%s\n" *)
  [Pct_s; Pct_s; Lit "_file"; Pct_s; Lit nl].
Definition fmt_label : format :=             (* "%s_file:\n" *)
  [Pct_s; Lit "_file:"; Lit nl].
Definition fmt_sep : format :=               (* ",\t" *)
  [Lit ","; Lit tab].
Definition fmt_newline_def : format :=       (* "\n%s\t" *)
  [Lit nl; Pct_s; Lit tab].
Definition fmt_byte : format :=              (* "0x%x" *)
  [Lit "0x"; Pct_x].
Definition fmt_export_size : format :=       (* "\n\n%s%s_file_size%s\n" *)
  [Lit nl; Lit nl; Pct_s; Pct_s; Lit "_file_size"; Pct_s; Lit nl].
Definition fmt_size_label : format :=        (* "%s_file_size: %s%s_file\n" *)
  [Pct_s; Lit "_file_size: "; Pct_s; Pct_s; Lit "_file"; Lit nl].

(** ** Streams *)

(** What one [fread(&byte, 1, 1, in)] does: it stores a byte and returns 1,
    or returns 0 and leaves the stream with the given [feof] and [ferror]
    indicators. *)
Inductive fread_outcome : Type :=
| Item (b : byte)
| NoItem (eof err : bool).

(** An input stream: the outcomes of the reads still to come.  Once the
    script is used up the stream is at a clean end of file. *)
Definition FILE_in : Type := list fread_outcome.

(** A file that delivers [bs] and then ends. *)
Definition file_of (bs : list byte) : FILE_in := map Item bs.

(** A file that delivers [bs] and then fails with a read error. *)
Definition failing_file (bs : list byte) : FILE_in :=
  map Item bs ++ [NoItem false true].

(** One successful [fprintf] call. *)
Record call : Type := { call_fmt : format; call_args : list arg }.

Definition call_text (c : call) : string :=
  sprintf (call_fmt c) (call_args c).

(** An output stream: the calls that succeeded, oldest first, and how many
    further calls succeed ([None]: the device never fails). *)
Record FILE_out : Type := {
  calls : list call;
  budget : option nat
}.

Definition fresh_out (q : option nat) : FILE_out :=
  {| calls := []; budget := q |}.

(** The text of a sequence of calls, and the text that reached a stream. *)
Definition text_of (cs : list call) : string :=
  fold_right (fun c acc => (call_text c ++ acc)%string) "" cs.

Definition contents (out : FILE_out) : string := text_of (calls out).

(** [fprintf]: the number of characters written, or a negative value when
    the device refuses the call; a refused call leaves the log unchanged. *)
Definition fprintf (out : FILE_out) (f : format) (args : list arg)
  : Z * FILE_out :=
  let c := {| call_fmt := f; call_args := args |} in
  match budget out with
  | Some O => (-1, out)
  | Some (S q) =>
      (Z.of_nat (String.length (call_text c)),
       {| calls := calls out ++ [c]; budget := Some q |})
  | None =>
      (Z.of_nat (String.length (call_text c)),
       {| calls := calls out ++ [c]; budget := None |})
  end.

(** ** convert *)

(** [args[i]]. *)
Definition arg_at (args : list string) (i : nat) : string := nth i args "".

(** What [convert] leaves behind: its return value, [*count], and both
    streams. *)
Record convert_result : Type := {
  ret : Z;
  count : Z;
  in_after : FILE_in;
  out_after : FILE_out
}.

Definition in_err (cnt : Z) (fin : FILE_in) (out : FILE_out) :=
  {| ret := -1; count := cnt; in_after := fin; out_after := out |}.
Definition out_err (cnt : Z) (fin : FILE_in) (out : FILE_out) :=
  {| ret := -2; count := cnt; in_after := fin; out_after := out |}.

(** The part of [convert] after the loop. *)
Definition convert_tail (args : list string) (lang : lang_spec)
  (cnt : Z) (fin : FILE_in) (out : FILE_out) : convert_result :=
  let id := arg_at args IN_FILENAME_IDX in
  let (r1, out1) :=
    fprintf out fmt_export_size
      [AStr (glob_pre lang); AStr id; AStr (glob_post lang)] in
  if r1 <? 0 then out_err cnt fin out1 else
  let (r2, out2) :=
    fprintf out1 fmt_size_label [AStr id; AStr (diff lang); AStr id] in
  if r2 <? 0 then out_err cnt fin out2 else
  {| ret := 0; count := cnt; in_after := fin; out_after := out2 |}.

(** The body of the loop from the separator on, for the byte now held in
    [byte]; [k] is the rest of the loop. *)
Definition emit_byte (lang : lang_spec) (b : byte) (cnt : Z)
  (fin : FILE_in) (out : FILE_out)
  (k : Z -> FILE_out -> convert_result) : convert_result :=
  let (r1, out1) :=
    if negb (cnt =? 0) && negb (cnt mod ELEMS_PER_LINE =? 0)
    then fprintf out fmt_sep []
    else fprintf out fmt_newline_def [AStr (def lang)] in
  if r1 <? 0 then out_err cnt fin out1 else
  let (r2, out2) := fprintf out1 fmt_byte [AUInt (Byte.to_N b)] in
  if r2 <? 0 then out_err cnt fin out2 else
  k (size_incr cnt) out2.

(** The [for (;;)] loop.  [byte] is the local variable of that name: a read
    that returns 0 with neither indicator set falls through and emits
    whatever it still holds. *)
Fixpoint convert_loop (args : list string) (lang : lang_spec)
  (fin : FILE_in) (out : FILE_out) (byte : Byte.byte) (cnt : Z)
  : convert_result :=
  match fin with
  | [] => convert_tail args lang cnt [] out
  | Item b :: rest =>
      emit_byte lang b cnt rest out
        (fun cnt' out' => convert_loop args lang rest out' b cnt')
  | NoItem true _ :: rest => convert_tail args lang cnt rest out
  | NoItem false true :: rest => in_err cnt rest out
  | NoItem false false :: rest =>
      emit_byte lang byte cnt rest out
        (fun cnt' out' => convert_loop args lang rest out' byte cnt')
  end.

(** [convert(in, out, lang, &count)]; [byte0] is the indeterminate initial
    value of the local [byte]. *)
Definition convert (args : list string) (fin : FILE_in) (out : FILE_out)
  (lang : lang_spec) (byte0 : Byte.byte) : convert_result :=
  let cnt := 0 in
  let id := arg_at args IN_FILENAME_IDX in
  let (r1, out1) :=
    fprintf out fmt_export
      [AStr (glob_pre lang); AStr id; AStr (glob_post lang)] in
  if r1 <? 0 then out_err cnt fin out1 else
  let (r2, out2) := fprintf out1 fmt_label [AStr id] in
  if r2 <? 0 then out_err cnt fin out2 else
  convert_loop args lang fin out2 byte0 cnt.

(** ** cleanup and main *)

(** What [main] does that is visible from outside, in order. *)
Inductive event : Type :=
| Ev_stderr (text : string)
| Ev_fopen (path mode : string) (ok : bool)
| Ev_store (idx : nat) (s : string)          (* argv[idx] rewritten in place *)
| Ev_convert (args : list string) (r : convert_result)
| Ev_fclose_out
| Ev_fclose_in
| Ev_exit (status : Z).

(** How a run ends: [exit(status)], [return status] from [main], or a call
    whose behaviour C leaves undefined. *)
Inductive ending : Type :=
| Exited (status : Z)
| Returned (status : Z)
| Undefined.

Record run : Type := { trace : list event; final : ending }.

(** The value of the local [out] of [main]. *)
Inductive out_ptr : Type :=
| Ptr_stdout
| Ptr_file
| Ptr_null.

(** The value of the local [in] of [main]: [None] is NULL. *)
Definition in_ptr : Type := option FILE_in.

(** The file system and the process as [main] finds them.  An input
    stream is the script of its reads, fixed when it is opened: creating
    the output file is taken to leave the input file as it is, so a run in
    which [argv[3]] names the input file itself is outside the model. *)
Record env : Type := {
  open_r : string -> option FILE_in;    (* fopen(path, "r") *)
  open_w : string -> option FILE_out;   (* fopen(path, "w") *)
  stdout0 : FILE_out;                   (* stdout *)
  byte0 : byte                          (* what convert's local byte holds *)
}.

(** [fclose(out)]: undefined on a null pointer. *)
Definition fclose_out (p : out_ptr) : option (list event) :=
  match p with
  | Ptr_null => None
  | _ => Some [Ev_fclose_out]
  end.

Definition is_stdout (p : out_ptr) : bool :=
  match p with Ptr_stdout => true | _ => false end.

(** [cleanup(in, out)]; [None] when it runs into undefined behaviour. *)
Definition cleanup (fin : in_ptr) (out : out_ptr) : option (list event) :=
  match (if negb (is_stdout out) then fclose_out out else Some []) with
  | None => None
  | Some evs =>
      Some (evs ++ match fin with Some _ => [Ev_fclose_in] | None => [] end)
  end.

Definition panic (tr : list event) (msg : string) : run :=
  {| trace := tr ++ [Ev_stderr ("Error: " ++ msg ++ nl); Ev_exit 1];
     final := Exited 1 |}.

(** [cleanup(in, out); panic(msg);] *)
Definition cleanup_panic (tr : list event) (fin : in_ptr) (out : out_ptr)
  (msg : string) : run :=
  match cleanup fin out with
  | None => {| trace := tr; final := Undefined |}
  | Some evs => panic (tr ++ evs) msg
  end.

Definition print_langs : list event :=
  map (fun lang => Ev_stderr (" " ++ name lang)) lang_specs
  ++ [Ev_stderr nl].

Definition usage (progname : string) : list event :=
  [Ev_stderr ("Format: " ++ progname ++
     " <lang> <binary file name> [<assembly file name>]" ++ nl);
   Ev_stderr "<lang> can be one of:"]
  ++ print_langs ++ [Ev_stderr nl].

(** [argv[i] = s]. *)
Fixpoint store_arg (argv : list string) (i : nat) (s : string)
  : list string :=
  match argv, i with
  | [], _ => []
  | _ :: rest, O => s :: rest
  | a :: rest, S i' => a :: store_arg rest i' s
  end.

(** [str_repl_char(argv[i], old, new)] with its effect on [argv]. *)
Definition repl_arg (argv : list string) (i : nat) (old new : ascii)
  : list string :=
  store_arg argv i (snd (str_repl_char (arg_at argv i) old new)).

(** The two replacement calls of [main]. *)
Definition sanitize_args (argv : list string) : list string :=
  repl_arg (repl_arg argv IN_FILENAME_IDX "." "_") IN_FILENAME_IDX "-" "_".

(** [%lu]. *)
Definition render_lu (n : Z) : string :=
  NilZero.string_of_uint (N.to_uint (Z.to_N n)).

(** [main] from the replacement calls on, with both streams open. *)
Definition main_convert (e : env) (argv : list string) (lang : lang_spec)
  (fin : FILE_in) (out : out_ptr) (fout : FILE_out) (tr : list event)
  : run :=
  let argv1 := repl_arg argv IN_FILENAME_IDX "." "_" in
  let argv2 := repl_arg argv1 IN_FILENAME_IDX "-" "_" in
  let tr1 := tr ++ [Ev_store IN_FILENAME_IDX (arg_at argv1 IN_FILENAME_IDX);
                    Ev_store IN_FILENAME_IDX (arg_at argv2 IN_FILENAME_IDX)] in
  let r := convert argv2 fin fout lang (byte0 e) in
  let tr2 := tr1 ++ [Ev_convert argv2 r] in
  if ret r =? -1 then
    cleanup_panic tr2 (Some fin) out "Unable to read the input file."
  else if ret r =? -2 then
    cleanup_panic tr2 (Some fin) out
      "Unable to write the output file. WARNING: Output data is inconsistent!"
  else
    let tr3 := tr2 ++ [Ev_stderr (render_lu (count r) ++
                                  " bytes have been converted." ++ nl)] in
    match cleanup (Some fin) out with
    | None => {| trace := tr3; final := Undefined |}
    | Some evs => {| trace := tr3 ++ evs; final := Returned 0 |}
    end.

(** [main(argc, argv)], [argc] being the length of [argv].  [argv] holds
    at least the program name: with an empty [argv] the source hands the
    null [argv[0]] to [usage], which the model reads as the empty
    string. *)
Definition main (e : env) (argv : list string) : run :=
  let argc := Z.of_nat (List.length argv) in
  let progname := arg_at argv PROG_FILENAME_IDX in
  let tr0 :=
    [Ev_stderr ("Binary file to assembly language converter." ++ nl ++ nl)] in
  if (argc <? 3) || (argc >? 4) then
    panic (tr0 ++ usage progname) "At least two parameters are necessary."
  else
  match lookup_lang_spec (arg_at argv ARCH_NAME_IDX) with
  | None => panic tr0 "Non-supported assembly syntax."
  | Some lang =>
      let in_name := arg_at argv IN_FILENAME_IDX in
      match open_r e in_name with
      | None =>
          panic (tr0 ++ [Ev_fopen in_name "r" false])
            "Unable to open the input file."
      | Some fin =>
          let tr1 := tr0 ++ [Ev_fopen in_name "r" true] in
          if 4 =? argc then
            let out_name := arg_at argv OUT_FILENAME_IDX in
            match open_w e out_name with
            | None =>
                cleanup_panic (tr1 ++ [Ev_fopen out_name "w" false])
                  (Some fin) Ptr_null "Unable to create a new file."
            | Some fout =>
                main_convert e argv lang fin Ptr_file fout
                  (tr1 ++ [Ev_fopen out_name "w" true])
            end
          else
            main_convert e argv lang fin Ptr_stdout (stdout0 e) tr1
      end
  end.

(** * Vocabulary of the properties *)

(** ** Byte literals read back *)

(** The call that prints the literal of [b]. *)
Definition byte_call (b : byte) : call :=
  {| call_fmt := fmt_byte; call_args := [AUInt (Byte.to_N b)] |}.

(** Reading a numeral back: the value of one lowercase hexadecimal digit
    (an upper-case letter is not one), and of a non-empty string of them. *)
Definition hex_digit_value (c : ascii) : option N :=
  let n := N_of_ascii c in
  if ((48 <=? n) && (n <=? 57))%N then Some (n - 48)%N
  else if ((97 <=? n) && (n <=? 102))%N then Some (n - 87)%N
  else None.

Fixpoint hex_value_from (acc : N) (s : string) : option N :=
  match s with
  | EmptyString => Some acc
  | String c s' =>
      match hex_digit_value c with
      | Some d => hex_value_from (16 * acc + d)%N s'
      | None => None
      end
  end.

Definition hex_value (s : string) : option N :=
  match s with
  | EmptyString => None
  | _ => hex_value_from 0%N s
  end.

(** No padding: a numeral of more than one digit does not start with 0. *)
Definition unpadded (s : string) : bool :=
  match s with
  | String c (String _ _) => negb (Ascii.eqb c "0")
  | _ => true
  end.

(** ** The calls of a conversion *)

Definition export_call (lang : lang_spec) (id : string) : call :=
  {| call_fmt := fmt_export;
     call_args := [AStr (glob_pre lang); AStr id; AStr (glob_post lang)] |}.
Definition label_call (id : string) : call :=
  {| call_fmt := fmt_label; call_args := [AStr id] |}.
Definition comma_call : call :=
  {| call_fmt := fmt_sep; call_args := [] |}.
Definition directive_call (lang : lang_spec) : call :=
  {| call_fmt := fmt_newline_def; call_args := [AStr (def lang)] |}.
Definition export_size_call (lang : lang_spec) (id : string) : call :=
  {| call_fmt := fmt_export_size;
     call_args := [AStr (glob_pre lang); AStr id; AStr (glob_post lang)] |}.
Definition size_label_call (lang : lang_spec) (id : string) : call :=
  {| call_fmt := fmt_size_label;
     call_args := [AStr id; AStr (diff lang); AStr id] |}.

(** What precedes the byte at running count [c]: a new directive line when
    [c = 0] or [c mod 8 = 0], a comma and a tab otherwise. *)
Definition sep_call (lang : lang_spec) (c : Z) : call :=
  if (c =? 0) || (c mod 8 =? 0) then directive_call lang else comma_call.

(** The calls for the bytes [bs], the first of them at running count [i]. *)
Fixpoint body_calls (lang : lang_spec) (i : nat) (bs : list byte)
  : list call :=
  match bs with
  | [] => []
  | b :: bs' =>
      sep_call lang (Z.of_nat i) :: byte_call b :: body_calls lang (S i) bs'
  end.

Definition header_calls (lang : lang_spec) (id : string) : list call :=
  [export_call lang id; label_call id].
Definition footer_calls (lang : lang_spec) (id : string) : list call :=
  [export_size_call lang id; size_label_call lang id].

(** The calls of a conversion that reads [bs] and then meets the end of the
    file. *)
Definition fragment_calls (lang : lang_spec) (id : string) (bs : list byte)
  : list call :=
  header_calls lang id ++ body_calls lang 0 bs ++ footer_calls lang id.

(** The calls of a conversion that reads [bs] and then meets a read
    error. *)
Definition truncated_calls (lang : lang_spec) (id : string) (bs : list byte)
  : list call :=
  header_calls lang id ++ body_calls lang 0 bs.

(** Issues the calls in order and stops at the first one refused. *)
Fixpoint write_all (out : FILE_out) (cs : list call) : bool * FILE_out :=
  match cs with
  | [] => (true, out)
  | c :: cs' =>
      let (r, out') := fprintf out (call_fmt c) (call_args c) in
      if r <? 0 then (false, out') else write_all out' cs'
  end.

(** How many of [n] calls a stream with budget [q] accepts. *)
Definition accepted (q : option nat) (n : nat) : nat :=
  match q with
  | None => n
  | Some k => Nat.min k n
  end.

Definition enough (q : option nat) (n : nat) : bool :=
  match q with
  | None => true
  | Some k => (n <=? k)%nat
  end.

Definition spend (q : option nat) (n : nat) : option nat :=
  match q with
  | None => None
  | Some k => Some (k - n)%nat
  end.

(** The stream is at a clean end of file. *)
Definition at_eof (tail : FILE_in) : bool :=
  match tail with
  | [] => true
  | NoItem true _ :: _ => true
  | _ => false
  end.

(** The next read fails with the error indicator set. *)
Definition at_error (tail : FILE_in) : bool :=
  match tail with
  | NoItem false true :: _ => true
  | _ => false
  end.

Definition terminal (tail : FILE_in) : bool := at_eof tail || at_error tail.

(** The calls of a conversion of a file that delivers [bs] and then reaches
    [tail]. *)
Definition planned_calls (lang : lang_spec) (id : string) (bs : list byte)
  (tail : FILE_in) : list call :=
  if at_error tail then truncated_calls lang id bs
  else fragment_calls lang id bs.

(** A script as the C library produces them: a read that delivers nothing
    sets the end-of-file or the error indicator. *)
Definition conforming (s : FILE_in) : bool :=
  forallb (fun o => match o with
                    | NoItem false false => false
                    | _ => true
                    end) s.

(** The bytes a script delivers before its first read that delivers
    nothing, and the script from that read on. *)
Fixpoint delivered (s : FILE_in) : list byte :=
  match s with
  | Item b :: rest => b :: delivered rest
  | _ => []
  end.

Fixpoint stop (s : FILE_in) : FILE_in :=
  match s with
  | Item _ :: rest => stop rest
  | _ => s
  end.

(** ** Counting byte literals *)

(** A call that prints a byte literal: its format has a [%x]. *)
Definition is_byte_call (c : call) : bool :=
  existsb (fun d => match d with Pct_x => true | _ => false end) (call_fmt c).

(** The number of byte literals among the calls [cs]. *)
Definition literals (cs : list call) : nat :=
  List.length (filter is_byte_call cs).

(** What a run of the loop adds to the log, and the counter it leaves. *)
Definition counts_literals (i : nat) (budget_in : nat) (out : FILE_out)
  (r : convert_result) : Prop :=
  exists added : list call,
    calls (out_after r) = calls out ++ added
    /\ count r = Z.of_nat (i + literals added) mod size_modulus
    /\ (literals added <= budget_in)%nat.

(** ** Text and lines *)

(** Splitting a text at its line feeds; a text that ends with a line feed
    has an empty last piece. *)
Fixpoint lines (s : string) : list string :=
  match s with
  | EmptyString => [EmptyString]
  | String c s' =>
      if Ascii.eqb c LF then EmptyString :: lines s'
      else match lines s' with
           | l :: ls => String c l :: ls
           | [] => [String c EmptyString]
           end
  end.

Fixpoint no_lf (s : string) : bool :=
  match s with
  | EmptyString => true
  | String c s' => negb (Ascii.eqb c LF) && no_lf s'
  end.

(** Blank: nothing but spaces and tabs. *)
Fixpoint blank (s : string) : bool :=
  match s with
  | EmptyString => true
  | String c s' => (Ascii.eqb c " " || Ascii.eqb c TAB) && blank s'
  end.

(** The literal of a byte. *)
Definition literal (b : byte) : string := call_text (byte_call b).

(** A directive line for the bytes [g]: the keyword, a tab, and the literals
    separated by a comma and a tab. *)
Definition byte_line (lang : lang_spec) (g : list byte) : string :=
  (def lang ++ tab ++ String.concat ("," ++ tab) (map literal g))%string.

(** The bytes in groups of eight, the last group holding what is left. *)
Fixpoint groups_of (fuel : nat) (bs : list byte) : list (list byte) :=
  match fuel with
  | O => []
  | S fuel' =>
      match bs with
      | [] => []
      | _ :: _ => firstn 8 bs :: groups_of fuel' (skipn 8 bs)
      end
  end.

Definition groups (bs : list byte) : list (list byte) :=
  groups_of (List.length bs) bs.

Definition byte_lines (lang : lang_spec) (bs : list byte) : list string :=
  map (byte_line lang) (groups bs).

(** The four lines around the bytes. *)
Definition export_line (lang : lang_spec) (id : string) : string :=
  (glob_pre lang ++ id ++ "_file" ++ glob_post lang)%string.
Definition label_line (id : string) : string := (id ++ "_file:")%string.
Definition export_size_line (lang : lang_spec) (id : string) : string :=
  (glob_pre lang ++ id ++ "_file_size" ++ glob_post lang)%string.
Definition size_label_line (lang : lang_spec) (id : string) : string :=
  (id ++ "_file_size: " ++ diff lang ++ id ++ "_file")%string.

(** The text of the directive lines [ls], each begun by a line feed,
    followed by [rest]. *)
Definition lines_then (ls : list string) (rest : string) : string :=
  fold_right (fun l acc => String LF (l ++ acc)%string) rest ls.

(** The literals of [g], each begun by a comma and a tab. *)
Definition continued (g : list byte) : string :=
  fold_right (fun b acc => ("," ++ tab ++ literal b ++ acc)%string) "" g.

Definition clean_lang (lang : lang_spec) : bool :=
  no_lf (def lang) && no_lf (diff lang)
  && no_lf (glob_pre lang) && no_lf (glob_post lang).

(** ** The identifier *)

(** Every [.] and [-] replaced by [_]. *)
Fixpoint replace_dot_dash (s : string) : string :=
  match s with
  | EmptyString => EmptyString
  | String c s' =>
      String (if Ascii.eqb c "." || Ascii.eqb c "-" then "_"%char else c)
             (replace_dot_dash s')
  end.

Fixpoint has_slash (s : string) : bool :=
  match s with
  | EmptyString => false
  | String c s' => Ascii.eqb c "/" || has_slash s'
  end.

(** The base name of a path: what follows its last [/]. *)
Fixpoint basename (s : string) : string :=
  match s with
  | EmptyString => EmptyString
  | String c s' =>
      if has_slash s' then basename s'
      else if Ascii.eqb c "/" then s' else s
  end.

(** The identifier [convert] finds in [args] after the two replacement
    calls of [main]. *)
Definition identifier (argv : list string) : string :=
  arg_at (sanitize_args argv) IN_FILENAME_IDX.

(** ** Runs of main *)

(** No [fopen] comes after a store into [argv]; [stored] tells whether a
    store has been seen. *)
Fixpoint opens_precede_stores (tr : list event) (stored : bool) : bool :=
  match tr with
  | [] => true
  | Ev_store _ _ :: tr' => opens_precede_stores tr' true
  | Ev_fopen _ _ _ :: tr' => negb stored && opens_precede_stores tr' stored
  | _ :: tr' => opens_precede_stores tr' stored
  end.

(** A file system in which every input file holds the byte [A] and every
    output file can be created on a device that never fails. *)
Definition plain_env : env :=
  {| open_r := fun _ => Some (file_of [x41]);
     open_w := fun _ => Some (fresh_out None);
     stdout0 := fresh_out None;
     byte0 := x00 |}.

(** The same, but no output file can be created. *)
Definition no_output_env : env :=
  {| open_r := fun _ => Some (file_of [x41]);
     open_w := fun _ => None;
     stdout0 := fresh_out None;
     byte0 := x00 |}.

(** ** Characters of a string *)

(** The largest [int]. *)
Definition INT_MAX : Z := 2 ^ 31 - 1.

(** How often [c] occurs in [s]. *)
Fixpoint occurrences (c : ascii) (s : string) : Z :=
  match s with
  | EmptyString => 0
  | String x s' => (if Ascii.eqb x c then 1 else 0) + occurrences c s'
  end.

(** Every character of [s] passes [p]. *)
Fixpoint string_forall (p : ascii -> bool) (s : string) : bool :=
  match s with
  | EmptyString => true
  | String x s' => p x && string_forall p s'
  end.

(** The character that ends a C string. *)
Definition NUL : ascii := "000"%char.

(** [s] is the content of a C string: no NUL inside. *)
Definition c_string (s : string) : bool :=
  string_forall (fun c => negb (Ascii.eqb c NUL)) s.

(** A letter, a digit or an underscore. *)
Definition ident_char (c : ascii) : bool :=
  let n := N_of_ascii c in
  ((48 <=? n) && (n <=? 57) || (65 <=? n) && (n <=? 90)
   || (97 <=? n) && (n <=? 122) || (n =? 95))%N.

(** A character of a plain file name: one of the above, a dot or a dash. *)
Definition name_char (c : ascii) : bool :=
  ident_char c || Ascii.eqb c "." || Ascii.eqb c "-".

(** ** Outcomes of a conversion *)

(** The return value of [r] is one of the three of [convert], and a failure
    has its cause: -1 a read that set the error indicator somewhere in the
    script [fin], -2 a device that refuses calls, its budget used up. *)
Definition caused (fin : FILE_in) (out : FILE_out) (r : convert_result)
  : Prop :=
  (ret r = 0 \/ ret r = -1 \/ ret r = -2)
  /\ (ret r = -1 -> In (NoItem false true) fin)
  /\ (ret r = -2 -> budget out <> None /\ budget (out_after r) = Some O).

(** [r] left [fin] and [out] further on: it consumed a first part of the
    script, appended calls to the log, and read at most one outcome more
    than it wrote byte literals. *)
Definition advances (fin : FILE_in) (out : FILE_out) (r : convert_result)
  : Prop :=
  exists (used : FILE_in) (added : list call),
    fin = used ++ in_after r
    /\ calls (out_after r) = calls out ++ added
    /\ (List.length used <= S (literals added))%nat.

(** Two results that differ at most in the input left over. *)
Definition same_outcome (r r' : convert_result) : Prop :=
  ret r = ret r' /\ count r = count r' /\ out_after r = out_after r'.

(** ** Tactics for the calls of convert *)

(** Runs one [fprintf] of the source by the case lemma [cases] and names
    what it leaves. *)
Ltac step_fprintf cases out f a r1 out1 H1 Hc Hb :=
  destruct (cases out f a) as [(H1 & Hc & Hb)|(H1 & Hc & Hb)];
  destruct (fprintf out f a) as [r1 out1];
  cbn [fst snd] in H1, Hc, Hb; rewrite H1.

(** ** Reading a fragment back *)

(** The pieces of [s] between the occurrences of [sep]. *)
Fixpoint split_at (sep : ascii) (s : string) : list string :=
  match s with
  | EmptyString => [EmptyString]
  | String c s' =>
      if Ascii.eqb c sep then EmptyString :: split_at sep s'
      else match split_at sep s' with
           | l :: ls => String c l :: ls
           | [] => [String c EmptyString]
           end
  end.

(** [s] holds no [sep]. *)
Definition lacks (sep : ascii) (s : string) : bool :=
  string_forall (fun c => negb (Ascii.eqb c sep)) s.

Fixpoint all_some {A : Type} (l : list (option A)) : option (list A) :=
  match l with
  | [] => Some []
  | None :: _ => None
  | Some x :: l' =>
      match all_some l' with
      | Some xs => Some (x :: xs)
      | None => None
      end
  end.

(** [s] without the comma it may end with. *)
Fixpoint strip_comma (s : string) : string :=
  match s with
  | EmptyString => EmptyString
  | String c EmptyString => if Ascii.eqb c "," then EmptyString else s
  | String c s' => String c (strip_comma s')
  end.

(** The byte written as [0x] and lowercase hexadecimal digits, with or
    without a comma after it. *)
Definition parse_literal (field : string) : option byte :=
  match strip_comma field with
  | String "0" (String "x" digits) =>
      match hex_value digits with
      | Some n => Byte.of_N n
      | None => None
      end
  | _ => None
  end.

(** The bytes of a directive line: the keyword [kw], then the literals,
    each after a tab. *)
Definition decode_line (kw : string) (line : string) : option (list byte) :=
  match split_at TAB line with
  | d :: fields =>
      if String.eqb d kw then all_some (map parse_literal fields) else None
  | [] => None
  end.

(** The bytes of a fragment: those of its directive lines, which are the
    lines after the first three and before the last four. *)
Definition decode_fragment (kw : string) (text : string)
  : option (list byte) :=
  let ls := lines text in
  let body := firstn (List.length ls - 7) (skipn 3 ls) in
  option_map (@List.concat byte) (all_some (map (decode_line kw) body)).

(** ** The streams of a run *)


(** The first line [main] writes to [stderr]. *)
Definition banner : event :=
  Ev_stderr ("Binary file to assembly language converter." ++ nl ++ nl).

(** The argument count is one [main] accepts. *)
Definition argc_ok (argv : list string) : bool :=
  ((3 <=? List.length argv) && (List.length argv <=? 4))%nat.

(** How many events of [tr] pass [p]. *)
Definition count_events (p : event -> bool) (tr : list event) : nat :=
  List.length (filter p tr).

Definition is_open_in (ev : event) : bool :=
  match ev with
  | Ev_fopen _ mode true => String.eqb mode "r"
  | _ => false
  end.

Definition is_open_out (ev : event) : bool :=
  match ev with
  | Ev_fopen _ mode true => String.eqb mode "w"
  | _ => false
  end.

Definition is_close_in (ev : event) : bool :=
  match ev with Ev_fclose_in => true | _ => false end.

Definition is_close_out (ev : event) : bool :=
  match ev with Ev_fclose_out => true | _ => false end.

(** ** Tactics for the tests of main *)

(** Turns the boolean tests on integers among the hypotheses into
    equations and inequations. *)
Ltac tests_to_props :=
  repeat match goal with
  | H : (_ =? _) = true |- _ => apply Z.eqb_eq in H
  | H : (_ =? _) = false |- _ => apply Z.eqb_neq in H
  | H : (_ || _) = false |- _ => apply orb_false_iff in H; destruct H
  | H : (_ <? _) = false |- _ => apply Z.ltb_ge in H
  | H : (_ >? _) = false |- _ => rewrite Z.gtb_ltb in H
  end.

(** ** Tactics for the runs of main *)

(** Splits a goal about [main e argv] into the paths [main] can take. *)
Ltac split_run :=
  unfold main, main_convert, cleanup_panic, panic, cleanup;
  cbn [is_stdout negb fclose_out];
  repeat match goal with
  | |- context [if ?c then _ else _] => destruct c eqn:?
  | |- context [match ?x with _ => _ end] => destruct x eqn:?
  end;
  cbn [trace final is_stdout negb fclose_out].

(** Goes through the events of a trace that [H] says hold a given one. *)
Ltac in_events H :=
  rewrite ?in_app_iff in H; cbn [In usage print_langs map lang_specs app] in H;
  rewrite ?in_app_iff in H; cbn [In] in H;
  repeat match type of H with
  | _ \/ _ => destruct H as [H|H]
  | False => contradiction
  | _ = _ => first [discriminate H | injection H as ? ? ? | injection H as ? ?]
  end.

(** Finds an event in a trace. *)
Ltac find_event :=
  rewrite ?in_app_iff; cbn [In]; auto 12.

(** * Properties *)

(** ** The dialect table and its lookup *)

Lemma strcmp_refl (a : string) : strcmp a a = 0.
Proof.
  induction a as [|c a IH]; simpl; [reflexivity|].
  now rewrite N.compare_refl.
Qed.

Lemma N_of_ascii_inj (c d : ascii) : N_of_ascii c = N_of_ascii d -> c = d.
Proof.
  intro H. rewrite <- (ascii_N_embedding c), <- (ascii_N_embedding d).
  now f_equal.
Qed.

Lemma strcmp_zero (a b : string) : strcmp a b = 0 -> a = b.
Proof.
  revert b; induction a as [|c a IH]; intros [|d b]; simpl;
    try discriminate; [reflexivity|].
  destruct (N.compare (N_of_ascii c) (N_of_ascii d)) eqn:E; try discriminate.
  intro H. apply N.compare_eq in E. apply N_of_ascii_inj in E.
  subst d. f_equal. now apply IH.
Qed.

Lemma strcmp_eqb (a b : string) : (0 =? strcmp a b) = String.eqb a b.
Proof.
  destruct (String.eqb_spec a b) as [->|Hne].
  - now rewrite strcmp_refl.
  - apply Z.eqb_neq. intro H. apply Hne. now apply strcmp_zero.
Qed.

Lemma lookup_from_find (table : list lang_spec) (nm : string) :
  lookup_from table nm = find (fun lang => String.eqb (name lang) nm) table.
Proof.
  induction table as [|lang rest IH]; cbn [lookup_from find]; [reflexivity|].
  now rewrite strcmp_eqb, IH.
Qed.

Lemma lookup_lang_spec_cases (nm : string) :
  lookup_lang_spec nm =
    if String.eqb "nasm" nm then Some nasm_spec
    else if String.eqb "fasm" nm then Some fasm_spec
    else if String.eqb "as" nm then Some as_spec
    else None.
Proof. unfold lookup_lang_spec. now rewrite lookup_from_find. Qed.

Lemma lookup_lang_spec_In (nm : string) (lang : lang_spec) :
  lookup_lang_spec nm = Some lang -> In lang lang_specs /\ name lang = nm.
Proof.
  unfold lookup_lang_spec. rewrite lookup_from_find. intro H.
  apply find_some in H. destruct H as [Hin Heq].
  split; [exact Hin|]. now apply String.eqb_eq.
Qed.

(** C4: the table holds exactly nasm, fasm and as, in this order and with
    these fields; [lookup_lang_spec] returns the first entry whose name is
    the requested string, character for character (so it tells upper from
    lower case), and nothing ([None], the NULL of the source) for every
    other name. *)
Theorem lang_specs_lookup :
  lang_specs =
    [ {| name := "nasm"; def := "db"; diff := "dd $-";
         glob_pre := "[GLOBAL "; glob_post := "]" |};
      {| name := "fasm"; def := "db"; diff := "dd $-";
         glob_pre := "global "; glob_post := "" |};
      {| name := "as"; def := ".byte"; diff := ".long .-";
         glob_pre := ".globl "; glob_post := "" |} ]
  /\ (forall nm,
        lookup_lang_spec nm =
          find (fun lang => String.eqb (name lang) nm) lang_specs)
  /\ (forall nm lang,
        lookup_lang_spec nm = Some lang ->
        In lang lang_specs /\ name lang = nm)
  /\ (forall nm,
        nm <> "nasm" -> nm <> "fasm" -> nm <> "as" ->
        lookup_lang_spec nm = None)
  /\ lookup_lang_spec "nasm" = nth_error lang_specs 0
  /\ lookup_lang_spec "fasm" = nth_error lang_specs 1
  /\ lookup_lang_spec "as" = nth_error lang_specs 2
  /\ lookup_lang_spec "NASM" = None
  /\ lookup_lang_spec "As" = None
  /\ lookup_lang_spec "" = None.
Proof.
  split; [reflexivity|].
  split; [intro nm; apply lookup_from_find|].
  split; [apply lookup_lang_spec_In|].
  split.
  - intros nm H1 H2 H3. rewrite lookup_lang_spec_cases.
    destruct (String.eqb_spec "nasm" nm); [congruence|].
    destruct (String.eqb_spec "fasm" nm); [congruence|].
    destruct (String.eqb_spec "as" nm); [congruence|reflexivity].
  - repeat split; reflexivity.
Qed.

(** An unknown name is rejected. *)
Lemma lang_specs_lookup_witness : lookup_lang_spec "tasm" = None.
Proof.
  apply (proj1 (proj2 (proj2 (proj2 lang_specs_lookup))) "tasm");
    discriminate.
Defined.

(** ** The calls a conversion makes *)

Lemma call_eta (c : call) :
  {| call_fmt := call_fmt c; call_args := call_args c |} = c.
Proof. now destruct c. Qed.

Lemma write_all_closed (cs : list call) : forall out,
  write_all out cs =
    (enough (budget out) (List.length cs),
     {| calls := calls out ++ firstn (accepted (budget out) (List.length cs)) cs;
        budget := spend (budget out) (List.length cs) |}).
Proof.
  induction cs as [|c cs IH]; intros [log q].
  - cbn [write_all List.length budget calls].
    destruct q as [k|]; cbn [enough accepted spend firstn Nat.leb];
      rewrite ?Nat.min_0_r, ?Nat.sub_0_r; cbn [firstn];
      now rewrite app_nil_r.
  - cbn [write_all]. unfold fprintf. cbn [budget calls].
    rewrite call_eta. destruct q as [[|k]|].
    + cbn [Z.ltb Z.compare enough accepted spend firstn Nat.leb Nat.min
           List.length Nat.sub]. now rewrite app_nil_r.
    + replace (Z.of_nat _ <? 0) with false by (symmetry; apply Z.ltb_ge; lia).
      rewrite IH.
      cbn [budget calls enough accepted spend firstn Nat.leb Nat.min
           List.length Nat.sub].
      now rewrite <- app_assoc.
    + replace (Z.of_nat _ <? 0) with false by (symmetry; apply Z.ltb_ge; lia).
      rewrite IH.
      cbn [budget calls enough accepted spend firstn List.length].
      now rewrite <- app_assoc.
Qed.

Lemma write_all_app (a b : list call) : forall out,
  write_all out (a ++ b) =
    if fst (write_all out a) then write_all (snd (write_all out a)) b
    else write_all out a.
Proof.
  induction a as [|c a IH]; intro out; [reflexivity|].
  cbn [app write_all]. destruct (fprintf out (call_fmt c) (call_args c))
    as [r out'].
  destruct (r <? 0); [reflexivity|apply IH].
Qed.

(** ** The loop of convert *)

Section Loop.

Variable args : list string.
Variable lang : lang_spec.

Lemma eight_divides_size_modulus : (8 | size_modulus).
Proof. exists (2 ^ 61). reflexivity. Qed.

Lemma separator_choice (i : nat) :
  let cnt := Z.of_nat i mod size_modulus in
  negb (cnt =? 0) && negb (cnt mod ELEMS_PER_LINE =? 0) =
  negb ((Z.of_nat i =? 0) || (Z.of_nat i mod 8 =? 0)).
Proof.
  intro cnt. unfold ELEMS_PER_LINE.
  assert (Hm : cnt mod 8 = Z.of_nat i mod 8)
    by (apply Z.mod_mod_divide, eight_divides_size_modulus).
  rewrite Hm.
  destruct (Z.eqb_spec (Z.of_nat i mod 8) 0) as [H8|H8].
  - now rewrite andb_false_r, orb_true_r.
  - rewrite andb_true_r, orb_false_r. f_equal.
    destruct (Z.eqb_spec cnt 0) as [Hc|Hc];
      destruct (Z.eqb_spec (Z.of_nat i) 0) as [Hi|Hi]; try reflexivity.
    + exfalso. apply H8. rewrite <- Hm, Hc. reflexivity.
    + exfalso. apply H8. rewrite Hi. reflexivity.
Qed.

Lemma size_incr_of_nat (i : nat) :
  size_incr (Z.of_nat i mod size_modulus) = Z.of_nat (S i) mod size_modulus.
Proof.
  unfold size_incr. rewrite Z.add_mod_idemp_l by (intro H; discriminate H).
  now rewrite Nat2Z.inj_succ.
Qed.

Lemma emit_byte_calls (b : byte) (i : nat)
  (fin : FILE_in) (out : FILE_out) (k : Z -> FILE_out -> convert_result) :
  emit_byte lang b (Z.of_nat i mod size_modulus) fin out k =
    let s := sep_call lang (Z.of_nat i) in
    let (r1, out1) := fprintf out (call_fmt s) (call_args s) in
    if r1 <? 0 then out_err (Z.of_nat i mod size_modulus) fin out1 else
    let (r2, out2) :=
      fprintf out1 (call_fmt (byte_call b)) (call_args (byte_call b)) in
    if r2 <? 0 then out_err (Z.of_nat i mod size_modulus) fin out2 else
    k (Z.of_nat (S i) mod size_modulus) out2.
Proof.
  unfold emit_byte. rewrite separator_choice, size_incr_of_nat.
  unfold sep_call.
  destruct ((Z.of_nat i =? 0) || (Z.of_nat i mod 8 =? 0)); reflexivity.
Qed.

Lemma convert_loop_terminal_byte (tail : FILE_in) (out : FILE_out)
  (b b' : byte) (cnt : Z) :
  terminal tail = true ->
  convert_loop args lang tail out b cnt =
  convert_loop args lang tail out b' cnt.
Proof.
  destruct tail as [|[x|[|] [|]] rest]; cbn; intro H;
    try reflexivity; discriminate H.
Qed.

(** Reading the bytes [bs]: the loop issues their calls in order; when all
    are accepted it goes on with what follows [bs], and it leaves with -2 at
    the first one refused. *)
Lemma convert_loop_items (tail : FILE_in) :
  terminal tail = true ->
  forall (bs : list byte) (i : nat) (out : FILE_out) (b0 : byte),
    let w := write_all out (body_calls lang i bs) in
    let r := convert_loop args lang (map Item bs ++ tail) out b0
               (Z.of_nat i mod size_modulus) in
    if fst w
    then r = convert_loop args lang tail (snd w) b0
               (Z.of_nat (i + List.length bs) mod size_modulus)
    else ret r = -2 /\ out_after r = snd w.
Proof.
  intro Ht. induction bs as [|b bs IH]; intros i out b0.
  - cbn. now rewrite Nat.add_0_r.
  - cbn [map app convert_loop body_calls write_all List.length].
    rewrite emit_byte_calls. cbv zeta.
    destruct (fprintf out _ _) as [r1 out1].
    destruct (r1 <? 0); [cbn; split; reflexivity|].
    destruct (fprintf out1 _ _) as [r2 out2].
    destruct (r2 <? 0); [cbn; split; reflexivity|].
    specialize (IH (S i) out2 b). cbv zeta in IH.
    destruct (fst (write_all out2 (body_calls lang (S i) bs))).
    + rewrite IH. rewrite Nat.add_succ_r.
      apply convert_loop_terminal_byte, Ht.
    + exact IH.
Qed.

Lemma convert_tail_calls (cnt : Z) (fin : FILE_in) (out : FILE_out) :
  let w := write_all out (footer_calls lang (arg_at args IN_FILENAME_IDX)) in
  convert_tail args lang cnt fin out =
    {| ret := if fst w then 0 else -2; count := cnt;
       in_after := fin; out_after := snd w |}.
Proof.
  unfold convert_tail, footer_calls, out_err.
  cbn [write_all export_size_call size_label_call call_fmt call_args].
  destruct (fprintf out _ _) as [r1 out1].
  destruct (r1 <? 0); [reflexivity|].
  destruct (fprintf out1 _ _) as [r2 out2].
  destruct (r2 <? 0); reflexivity.
Qed.

(** [convert] on a file that delivers [bs] and then ends or fails: it issues
    the planned calls until one is refused. *)
Lemma convert_on_file (bs : list byte) (tail : FILE_in) (out : FILE_out)
  (b0 : byte) :
  terminal tail = true ->
  let id := arg_at args IN_FILENAME_IDX in
  let w := write_all out (planned_calls lang id bs tail) in
  let r := convert args (map Item bs ++ tail) out lang b0 in
  out_after r = snd w
  /\ ret r = (if fst w then (if at_error tail then -1 else 0) else -2)
  /\ (fst w = true ->
      in_after r = tl tail
      /\ count r = Z.of_nat (List.length bs) mod size_modulus).
Proof.
  intros Ht id w r. subst w r.
  unfold planned_calls, truncated_calls, fragment_calls, convert.
  fold id.
  assert (Hh : forall rest,
    write_all out (header_calls lang id ++ rest) =
      let (r1, out1) :=
        fprintf out fmt_export
          [AStr (glob_pre lang); AStr id; AStr (glob_post lang)] in
      if r1 <? 0 then (false, out1) else
      let (r2, out2) := fprintf out1 fmt_label [AStr id] in
      if r2 <? 0 then (false, out2) else write_all out2 rest).
  { intro rest. cbn [header_calls app write_all export_call label_call
                     call_fmt call_args].
    destruct (fprintf out _ _) as [r1 out1].
    destruct (r1 <? 0); [reflexivity|].
    destruct (fprintf out1 _ _) as [r2 out2]. reflexivity. }
  assert (Hw : write_all out
      (if at_error tail
       then header_calls lang id ++ body_calls lang 0 bs
       else header_calls lang id ++ body_calls lang 0 bs
            ++ footer_calls lang id) =
      write_all out (header_calls lang id ++
        (body_calls lang 0 bs ++
           if at_error tail then [] else footer_calls lang id))).
  { destruct (at_error tail); [now rewrite app_nil_r|reflexivity]. }
  rewrite Hw, Hh. clear Hw Hh.
  destruct (fprintf out _ _) as [r1 out1].
  destruct (r1 <? 0); [cbn; repeat split; discriminate|].
  destruct (fprintf out1 _ _) as [r2 out2].
  destruct (r2 <? 0); [cbn; repeat split; discriminate|].
  rewrite write_all_app.
  pose proof (convert_loop_items tail Ht bs 0 out2 b0) as Hl.
  cbv zeta in Hl. change (Z.of_nat 0 mod size_modulus) with 0 in Hl.
  destruct (write_all out2 (body_calls lang 0 bs)) as [ok out3].
  cbn [fst snd] in *. destruct ok.
  - rewrite Hl. cbn [Nat.add]. clear Hl.
    destruct tail as [|[x|[|] [|]] rest]; try discriminate Ht;
      cbn [at_error convert_loop tl];
      try (rewrite convert_tail_calls; cbv zeta; fold id;
           destruct (write_all out3 (footer_calls lang id)) as [ok4 out4];
           cbn; repeat split; reflexivity).
    cbn. repeat split; reflexivity.
  - destruct Hl as [Hr Ho]. rewrite Hr, Ho.
    repeat split; discriminate.
Qed.

(** ** The counter *)

Lemma literals_app (a b : list call) :
  literals (a ++ b) = (literals a + literals b)%nat.
Proof. unfold literals. now rewrite filter_app, length_app. Qed.

Lemma literals_sep (c : Z) : literals [sep_call lang c] = O.
Proof. unfold sep_call. now destruct ((c =? 0) || (c mod 8 =? 0)). Qed.

Lemma literals_footer_prefix (id : string) (n : nat) :
  literals (firstn n (footer_calls lang id)) = O.
Proof. destruct n as [|[|[|n]]]; reflexivity. Qed.

Lemma literals_body (bs : list byte) : forall i,
  literals (body_calls lang i bs) = List.length bs.
Proof.
  induction bs as [|b bs IH]; intro i; [reflexivity|].
  cbn [body_calls List.length].
  change (sep_call lang (Z.of_nat i) :: byte_call b :: body_calls lang (S i) bs)
    with ([sep_call lang (Z.of_nat i)] ++ [byte_call b]
          ++ body_calls lang (S i) bs).
  rewrite !literals_app, literals_sep, IH. reflexivity.
Qed.

Lemma fprintf_cases (out : FILE_out) (f : format) (a : list arg) :
  ((fst (fprintf out f a) <? 0) = true /\ snd (fprintf out f a) = out)
  \/ ((fst (fprintf out f a) <? 0) = false
      /\ calls (snd (fprintf out f a)) =
           calls out ++ [{| call_fmt := f; call_args := a |}]).
Proof.
  unfold fprintf. destruct (budget out) as [[|k]|]; cbn [fst snd calls].
  - left. split; reflexivity.
  - right. split; [apply Z.ltb_ge; lia|reflexivity].
  - right. split; [apply Z.ltb_ge; lia|reflexivity].
Qed.

Lemma convert_tail_counts (i n : nat) (fin : FILE_in) (out : FILE_out) :
  counts_literals i n out
    (convert_tail args lang (Z.of_nat i mod size_modulus) fin out).
Proof.
  rewrite convert_tail_calls. cbv zeta. rewrite write_all_closed.
  cbn [fst snd]. eexists. cbn [out_after count calls].
  split; [reflexivity|]. rewrite literals_footer_prefix, Nat.add_0_r.
  split; [reflexivity|apply Nat.le_0_l].
Qed.

Lemma emit_byte_counts (b : byte) (i n : nat)
  (fin : FILE_in) (out : FILE_out) (k : Z -> FILE_out -> convert_result) :
  (forall out', counts_literals (S i) n out'
                  (k (Z.of_nat (S i) mod size_modulus) out')) ->
  counts_literals i (S n) out
    (emit_byte lang b (Z.of_nat i mod size_modulus) fin out k).
Proof.
  intro Hk. rewrite emit_byte_calls. cbv zeta.
  set (s := sep_call lang (Z.of_nat i)).
  destruct (fprintf_cases out (call_fmt s) (call_args s)) as [[H1 E1]|[H1 E1]];
    destruct (fprintf out (call_fmt s) (call_args s)) as [r1 out1];
    cbn [fst snd] in H1, E1; rewrite H1.
  { exists []. cbn [out_err out_after count]. subst out1.
    rewrite app_nil_r, Nat.add_0_r. repeat split. apply Nat.le_0_l. }
  rewrite call_eta in E1.
  destruct (fprintf_cases out1 (call_fmt (byte_call b)) (call_args (byte_call b)))
    as [[H2 E2]|[H2 E2]];
    destruct (fprintf out1 (call_fmt (byte_call b)) (call_args (byte_call b)))
      as [r2 out2];
    cbn [fst snd] in H2, E2; rewrite H2.
  { exists [s]. cbn [out_err out_after count]. subst out2.
    unfold s at 2 3. rewrite literals_sep, Nat.add_0_r.
    repeat split; [exact E1|apply Nat.le_0_l]. }
  rewrite call_eta in E2.
  destruct (Hk out2) as (added & Hc & Hn & Hle).
  exists (s :: byte_call b :: added).
  split; [|split].
  - rewrite Hc, E2, E1, <- !app_assoc. reflexivity.
  - rewrite Hn. change (s :: byte_call b :: added)
      with ([s] ++ [byte_call b] ++ added).
    rewrite !literals_app. unfold s. rewrite literals_sep.
    change (literals [byte_call b]) with 1%nat.
    f_equal. f_equal. lia.
  - change (s :: byte_call b :: added) with ([s] ++ [byte_call b] ++ added).
    rewrite !literals_app. unfold s. rewrite literals_sep.
    change (literals [byte_call b]) with 1%nat. lia.
Qed.

(** The counter after the loop is the counter before it plus the number of
    byte literals that reached the stream, whatever the streams do. *)
Lemma convert_loop_counts (fin : FILE_in) : forall (out : FILE_out) (b0 : byte) (i : nat),
  counts_literals i (List.length fin) out
    (convert_loop args lang fin out b0 (Z.of_nat i mod size_modulus)).
Proof.
  induction fin as [|o rest IH]; intros out b0 i.
  - apply convert_tail_counts.
  - destruct o as [b|[|] [|]]; cbn [convert_loop List.length].
    + apply emit_byte_counts. intro out'. apply IH.
    + apply convert_tail_counts.
    + apply convert_tail_counts.
    + exists []. cbn [in_err out_after count].
      rewrite app_nil_r, Nat.add_0_r. repeat split. apply Nat.le_0_l.
    + apply emit_byte_counts. intro out'. apply IH.
Qed.

Lemma convert_counts (fin : FILE_in) (out : FILE_out) (b0 : byte) :
  counts_literals 0 (List.length fin) out (convert args fin out lang b0).
Proof.
  unfold convert.
  set (id := arg_at args IN_FILENAME_IDX).
  set (e := [AStr (glob_pre lang); AStr id; AStr (glob_post lang)]).
  destruct (fprintf_cases out fmt_export e) as [[H1 E1]|[H1 E1]];
    destruct (fprintf out fmt_export e) as [r1 out1];
    cbn [fst snd] in H1, E1; rewrite H1.
  { exists []. cbn [out_err out_after count]. subst out1.
    rewrite app_nil_r. repeat split. apply Nat.le_0_l. }
  destruct (fprintf_cases out1 fmt_label [AStr id]) as [[H2 E2]|[H2 E2]];
    destruct (fprintf out1 fmt_label [AStr id]) as [r2 out2];
    cbn [fst snd] in H2, E2; rewrite H2.
  { eexists. cbn [out_err out_after count]. subst out2.
    split; [exact E1|]. split; [reflexivity|apply Nat.le_0_l]. }
  destruct (convert_loop_counts fin out2 b0 0)
    as (added & Hc & Hn & Hle).
  change (Z.of_nat 0 mod size_modulus) with 0 in Hc, Hn.
  eexists (_ :: _ :: added). split; [|split].
  - rewrite Hc, E2, E1, <- !app_assoc. reflexivity.
  - rewrite Hn. reflexivity.
  - exact Hle.
Qed.

End Loop.

(** ** Return value and counter of convert *)

Lemma length_body_calls (lang : lang_spec) (bs : list byte) : forall i,
  List.length (body_calls lang i bs) = (2 * List.length bs)%nat.
Proof.
  induction bs as [|b bs IH]; intro i; [reflexivity|].
  cbn [body_calls List.length]. rewrite IH. lia.
Qed.

Lemma length_fragment_calls (lang : lang_spec) (id : string)
  (bs : list byte) :
  List.length (fragment_calls lang id bs) = (4 + 2 * List.length bs)%nat.
Proof.
  unfold fragment_calls. rewrite !length_app, length_body_calls.
  cbn [header_calls footer_calls List.length]. lia.
Qed.


Lemma at_eof_not_error (tail : FILE_in) :
  at_eof tail = true -> at_error tail = false.
Proof. destruct tail as [|[x|[|] [|]] rest]; cbn; congruence. Qed.

Lemma at_eof_terminal (tail : FILE_in) :
  at_eof tail = true -> terminal tail = true.
Proof. unfold terminal. now intros ->. Qed.

Lemma enough_accepted (q : option nat) (n : nat) :
  enough q n = true -> accepted q n = n.
Proof.
  destruct q as [k|]; cbn; [|reflexivity].
  intro H. apply Nat.leb_le in H. lia.
Qed.

(** Every conforming script is some bytes followed by the end of the file
    or by a read error. *)
Lemma script_shape (s : FILE_in) :
  conforming s = true ->
  s = file_of (delivered s) ++ stop s /\ terminal (stop s) = true.
Proof.
  induction s as [|o s IH]; [intros _; split; reflexivity|].
  destruct o as [b|[|] [|]]; cbn [conforming forallb andb]; intro H;
    try (split; reflexivity); try discriminate H.
  destruct (IH H) as [Hs Ht]. cbn [delivered stop file_of map app].
  split; [|exact Ht]. f_equal. exact Hs.
Qed.

(** A file that ends cleanly, on a device that accepts the whole
    fragment. *)
Lemma convert_file_success (args : list string) (lang : lang_spec)
  (bs : list byte) (tail : FILE_in) (q : option nat) (b0 : byte) :
  at_eof tail = true ->
  enough q (4 + 2 * List.length bs) = true ->
  let r := convert args (file_of bs ++ tail) (fresh_out q) lang b0 in
  ret r = 0
  /\ calls (out_after r) =
       fragment_calls lang (arg_at args IN_FILENAME_IDX) bs
  /\ count r = Z.of_nat (List.length bs) mod size_modulus
  /\ in_after r = tl tail.
Proof.
  intros He Hq r.
  destruct (convert_on_file args lang bs tail (fresh_out q) b0
              (at_eof_terminal tail He)) as (Ho & Hr & Hi).
  fold (file_of bs) in Ho, Hr, Hi. fold r in Ho, Hr, Hi.
  rewrite write_all_closed in Ho, Hr, Hi.
  cbn [fst snd fresh_out budget calls app] in Ho, Hr, Hi.
  unfold planned_calls in Ho, Hr, Hi.
  rewrite (at_eof_not_error tail He) in Ho, Hr, Hi.
  rewrite length_fragment_calls in Ho, Hr, Hi. rewrite Hq in Hr, Hi.
  destruct (Hi eq_refl) as [Hin Hc].
  split; [exact Hr|]. split; [|split; [exact Hc|exact Hin]].
  rewrite Ho. cbn [calls].
  rewrite (enough_accepted _ _ Hq).
  rewrite <- (length_fragment_calls lang (arg_at args IN_FILENAME_IDX) bs).
  apply firstn_all.
Qed.

Lemma convert_whole_file (args : list string) (lang : lang_spec)
  (bs : list byte) (b0 : byte) :
  let r := convert args (file_of bs) (fresh_out None) lang b0 in
  ret r = 0
  /\ calls (out_after r) =
       fragment_calls lang (arg_at args IN_FILENAME_IDX) bs
  /\ count r = Z.of_nat (List.length bs) mod size_modulus.
Proof.
  cbv zeta. rewrite <- (app_nil_r (file_of bs)).
  destruct (convert_file_success args lang bs [] None b0 eq_refl eq_refl)
    as (H1 & H2 & H3 & _).
  repeat split; assumption.
Qed.



(** C7: a conversion that succeeds reports as many bytes as it read from
    the input stream, zero for an empty input, and it read all of them; the
    count is a [size_t], so this is for inputs whose length fits one. *)
Theorem convert_count_success (args : list string) (lang : lang_spec)
  (bs : list byte) (tail : FILE_in) (q : option nat) (b0 : byte) :
  terminal tail = true ->
  Z.of_nat (List.length bs) < size_modulus ->
  let r := convert args (file_of bs ++ tail) (fresh_out q) lang b0 in
  ret r = 0 ->
  count r = Z.of_nat (List.length bs)
  /\ in_after r = tl tail
  /\ at_eof tail = true.
Proof.
  intros Ht Hlen r Hret.
  destruct (convert_on_file args lang bs tail (fresh_out q) b0 Ht)
    as (_ & Hr & Hi).
  fold (file_of bs) in Hr, Hi. fold r in Hr, Hi.
  destruct (fst (write_all _ _)).
  - destruct (Hi eq_refl) as [Hin Hc].
    split; [|split; [exact Hin|]].
    + rewrite Hc. apply Z.mod_small. lia.
    + unfold terminal in Ht. destruct (at_error tail).
      * rewrite Hr in Hret. discriminate Hret.
      * now rewrite orb_false_r in Ht.
  - rewrite Hr in Hret. discriminate Hret.
Qed.

Lemma convert_count_success_witness :
  count (convert ["btoa"; "nasm"; "blob"] (file_of [x41; x42; x43] ++ [])
           (fresh_out None) nasm_spec x00) = 3
  /\ count (convert ["btoa"; "nasm"; "blob"] (file_of [] ++ [])
              (fresh_out None) nasm_spec x00) = 0.
Proof.
  split.
  - apply (convert_count_success ["btoa"; "nasm"; "blob"] nasm_spec
             [x41; x42; x43] [] None x00); reflexivity.
  - apply (convert_count_success ["btoa"; "nasm"; "blob"] nasm_spec
             [] [] None x00); reflexivity.
Defined.



(** ** The text of a fragment *)

Lemma append_assoc (a b c : string) :
  ((a ++ b) ++ c = a ++ (b ++ c))%string.
Proof. induction a as [|x a IH]; cbn; [reflexivity|now rewrite IH]. Qed.

Lemma append_nil_r (a : string) : (a ++ "" = a)%string.
Proof. induction a as [|x a IH]; cbn; [reflexivity|now rewrite IH]. Qed.

Lemma text_of_app (a b : list call) :
  text_of (a ++ b) = (text_of a ++ text_of b)%string.
Proof.
  induction a as [|c a IH]; cbn [app text_of fold_right]; [reflexivity|].
  fold (text_of (a ++ b)). fold (text_of a).
  now rewrite IH, append_assoc.
Qed.

Lemma no_lf_app (a b : string) :
  no_lf (a ++ b) = no_lf a && no_lf b.
Proof.
  induction a as [|x a IH]; cbn; [reflexivity|].
  now rewrite IH, andb_assoc.
Qed.

Lemma lines_not_nil (s : string) : lines s <> [].
Proof.
  induction s as [|c s IH]; cbn; [discriminate|].
  destruct (Ascii.eqb c LF); [discriminate|].
  destruct (lines s); discriminate.
Qed.

Lemma lines_line (a rest : string) :
  no_lf a = true ->
  lines (a ++ String LF rest) = a :: lines rest.
Proof.
  induction a as [|x a IH]; cbn [append lines no_lf]; intro H.
  - reflexivity.
  - apply andb_true_iff in H. destruct H as [Hx Ha].
    apply negb_true_iff in Hx. rewrite Hx, (IH Ha). reflexivity.
Qed.

Lemma concat_continued (b : byte) (g : list byte) :
  String.concat ("," ++ tab) (map literal (b :: g)) =
  (literal b ++ continued g)%string.
Proof.
  revert b. induction g as [|c g IH]; intro b.
  - cbn [String.concat map continued fold_right]. now rewrite append_nil_r.
  - change (String.concat ("," ++ tab) (map literal (b :: c :: g)))
      with (literal b ++ ("," ++ tab)
            ++ String.concat ("," ++ tab) (map literal (c :: g)))%string.
    rewrite IH. reflexivity.
Qed.

Lemma sep_call_inside (lang : lang_spec) (m j : nat) :
  (1 <= j <= 7)%nat ->
  sep_call lang (Z.of_nat (8 * m + j)) = comma_call.
Proof.
  intro Hj. unfold sep_call.
  replace ((Z.of_nat (8 * m + j) =? 0) || (Z.of_nat (8 * m + j) mod 8 =? 0))
    with false; [reflexivity|].
  symmetry. apply orb_false_iff. split; apply Z.eqb_neq; lia.
Qed.

Lemma sep_call_start (lang : lang_spec) (m : nat) :
  sep_call lang (Z.of_nat (8 * m)) = directive_call lang.
Proof.
  unfold sep_call.
  replace (Z.of_nat (8 * m) mod 8 =? 0) with true;
    [now rewrite orb_true_r|].
  symmetry. apply Z.eqb_eq. lia.
Qed.

Lemma text_of_cons (c : call) (cs : list call) :
  text_of (c :: cs) = (call_text c ++ text_of cs)%string.
Proof. reflexivity. Qed.

Lemma body_text_inside (lang : lang_spec) (m : nat) (g : list byte) :
  forall j, (1 <= j)%nat -> (j + List.length g <= 8)%nat ->
  text_of (body_calls lang (8 * m + j) g) = continued g.
Proof.
  induction g as [|b g IH]; intros j H1 H2; [reflexivity|].
  cbn [List.length] in H2. cbn [body_calls continued fold_right].
  rewrite !text_of_cons, sep_call_inside by lia.
  replace (S (8 * m + j)) with (8 * m + S j)%nat by lia.
  rewrite IH by lia. fold (continued g). fold (literal b).
  cbn [call_text comma_call call_fmt call_args sprintf fmt_sep].
  now rewrite !append_assoc.
Qed.

Lemma body_text_group (lang : lang_spec) (m : nat) (g : list byte) :
  g <> [] -> (List.length g <= 8)%nat ->
  text_of (body_calls lang (8 * m) g) = String LF (byte_line lang g).
Proof.
  destruct g as [|b g]; [congruence|]. intros _ Hlen.
  cbn [List.length] in Hlen. cbn [body_calls].
  rewrite !text_of_cons, sep_call_start.
  replace (S (8 * m)) with (8 * m + 1)%nat by lia.
  rewrite body_text_inside by lia.
  unfold byte_line. rewrite concat_continued. fold (literal b).
  cbn [call_text directive_call call_fmt call_args sprintf fmt_newline_def].
  rewrite !append_assoc. reflexivity.
Qed.

Lemma body_calls_app (lang : lang_spec) (a b : list byte) : forall i,
  body_calls lang i (a ++ b) =
  body_calls lang i a ++ body_calls lang (i + List.length a) b.
Proof.
  induction a as [|x a IH]; intro i; cbn [app body_calls List.length].
  - now rewrite Nat.add_0_r.
  - rewrite IH. now rewrite Nat.add_succ_r.
Qed.

Lemma groups_of_nil (fuel : nat) : groups_of fuel [] = [].
Proof. now destruct fuel. Qed.

Lemma body_text_groups (lang : lang_spec) (fuel : nat) :
  forall (bs : list byte) (m : nat) (rest : string),
  (List.length bs <= fuel)%nat ->
  (text_of (body_calls lang (8 * m) bs) ++ rest)%string =
  lines_then (map (byte_line lang) (groups_of fuel bs)) rest.
Proof.
  induction fuel as [|fuel IH]; intros bs m rest Hlen.
  - destruct bs; [reflexivity|cbn in Hlen; lia].
  - destruct bs as [|b bs']; [reflexivity|].
    change (groups_of (S fuel) (b :: bs'))
      with (firstn 8 (b :: bs') :: groups_of fuel (skipn 8 (b :: bs'))).
    assert (Hne : b :: bs' <> []) by discriminate.
    remember (b :: bs') as bs eqn:Ebs. clear Ebs b bs'.
    cbn [map lines_then fold_right].
    fold (lines_then (map (byte_line lang) (groups_of fuel (skipn 8 bs))) rest).
    rewrite <- (firstn_skipn 8 bs) at 1.
    rewrite body_calls_app, text_of_app, append_assoc.
    rewrite body_text_group.
    + cbn [append]. f_equal. f_equal.
      destruct (Nat.le_gt_cases 8 (List.length bs)) as [Hge|Hlt].
      * rewrite length_firstn, Nat.min_l by exact Hge.
        replace (8 * m + 8)%nat with (8 * S m)%nat by lia.
        apply IH. rewrite length_skipn. lia.
      * rewrite skipn_all2 by lia. rewrite groups_of_nil. reflexivity.
    + destruct bs; [congruence|discriminate].
    + apply firstn_le_length.
Qed.

Lemma lines_then_starts (ls : list string) (rest : string) :
  exists t, lines_then ls (String LF rest) = String LF t.
Proof. destruct ls as [|l ls]; cbn; eexists; reflexivity. Qed.

Lemma lines_lines_then (ls : list string) (rest : string) :
  Forall (fun l => no_lf l = true) ls ->
  lines (lines_then ls (String LF rest)) = "" :: ls ++ lines rest.
Proof.
  induction 1 as [|l ls Hl Hls IH]; [reflexivity|].
  cbn [lines_then fold_right].
  fold (lines_then ls (String LF rest)).
  destruct (lines_then_starts ls rest) as [t Ht].
  rewrite Ht in IH |- *. cbn [lines] in IH |- *.
  rewrite Ascii.eqb_refl in IH |- *.
  rewrite lines_line by exact Hl.
  injection IH as IH. rewrite IH. reflexivity.
Qed.

(** *** Groups of eight *)

Lemma groups_of_nth (fuel : nat) : forall (bs : list byte) (j : nat),
  (List.length bs <= fuel)%nat ->
  (j < List.length (groups_of fuel bs))%nat ->
  nth j (groups_of fuel bs) [] = firstn 8 (skipn (8 * j) bs).
Proof.
  induction fuel as [|fuel IH]; intros bs j Hlen Hj.
  - cbn in Hj. lia.
  - destruct bs as [|b bs']; [cbn in Hj; lia|].
    change (groups_of (S fuel) (b :: bs'))
      with (firstn 8 (b :: bs') :: groups_of fuel (skipn 8 (b :: bs')))
      in Hj |- *.
    remember (b :: bs') as bs eqn:Ebs.
    assert (Hpos : (1 <= List.length bs)%nat) by (subst bs; cbn; lia).
    clear Ebs b bs'.
    destruct j as [|j]; [reflexivity|].
    cbn [nth]. cbn [List.length] in Hj.
    rewrite IH by (rewrite ?length_skipn; lia).
    rewrite skipn_skipn. f_equal. f_equal. lia.
Qed.

Lemma groups_of_length (fuel : nat) : forall bs : list byte,
  (List.length bs <= fuel)%nat ->
  List.length (groups_of fuel bs) = ((List.length bs + 7) / 8)%nat.
Proof.
  induction fuel as [|fuel IH]; intros bs Hlen.
  - destruct bs; [reflexivity|cbn in Hlen; lia].
  - destruct bs as [|b bs']; [reflexivity|].
    change (groups_of (S fuel) (b :: bs'))
      with (firstn 8 (b :: bs') :: groups_of fuel (skipn 8 (b :: bs'))).
    remember (b :: bs') as bs eqn:Ebs.
    assert (Hpos : (1 <= List.length bs)%nat) by (subst bs; cbn; lia).
    clear Ebs b bs'.
    cbn [List.length]. rewrite IH by (rewrite length_skipn; lia).
    rewrite length_skipn. lia.
Qed.

Lemma groups_length (bs : list byte) :
  List.length (groups bs) = ((List.length bs + 7) / 8)%nat.
Proof. apply groups_of_length, Nat.le_refl. Qed.

Lemma groups_nth (bs : list byte) (j : nat) :
  (j < List.length (groups bs))%nat ->
  nth j (groups bs) [] = firstn 8 (skipn (8 * j) bs).
Proof. apply groups_of_nth, Nat.le_refl. Qed.

(** Every group but the last holds eight bytes; the last holds what is
    left, at least one byte. *)
Lemma groups_full (bs : list byte) (j : nat) :
  (S j < List.length (groups bs))%nat ->
  List.length (nth j (groups bs) []) = 8%nat.
Proof.
  intro Hj. rewrite groups_nth by lia.
  rewrite length_firstn, length_skipn. rewrite groups_length in Hj. lia.
Qed.

Lemma groups_last (bs : list byte) (j : nat) :
  S j = List.length (groups bs) ->
  List.length (nth j (groups bs) []) = (List.length bs - 8 * j)%nat
  /\ (1 <= List.length bs - 8 * j <= 8)%nat.
Proof.
  intro Hj. rewrite groups_nth by lia.
  rewrite length_firstn, length_skipn. rewrite groups_length in Hj. lia.
Qed.

(** *** No line feed inside a line *)

Lemma lookup_clean (nm : string) (lang : lang_spec) :
  lookup_lang_spec nm = Some lang -> clean_lang lang = true.
Proof.
  intro H. apply lookup_lang_spec_In in H. destruct H as [Hin _].
  cbn in Hin. destruct Hin as [<-|[<-|[<-|[]]]]; reflexivity.
Qed.

Lemma no_lf_literal (b : byte) : no_lf (literal b) = true.
Proof. destruct b; reflexivity. Qed.

Lemma no_lf_continued (g : list byte) : no_lf (continued g) = true.
Proof.
  induction g as [|b g IH]; [reflexivity|].
  cbn [continued fold_right]. fold (continued g).
  rewrite !no_lf_app, no_lf_literal, IH. reflexivity.
Qed.

Lemma no_lf_byte_line (lang : lang_spec) (g : list byte) :
  no_lf (def lang) = true -> no_lf (byte_line lang g) = true.
Proof.
  intro Hd. unfold byte_line. rewrite !no_lf_app, Hd.
  destruct g as [|b g]; [reflexivity|].
  rewrite concat_continued, no_lf_app, no_lf_literal, no_lf_continued.
  reflexivity.
Qed.

Lemma clean_lang_fields (lang : lang_spec) :
  clean_lang lang = true ->
  no_lf (def lang) = true /\ no_lf (diff lang) = true
  /\ no_lf (glob_pre lang) = true /\ no_lf (glob_post lang) = true.
Proof.
  unfold clean_lang. intro H.
  repeat (apply andb_true_iff in H; destruct H as [H ?]). auto.
Qed.

(** *** The lines of a whole fragment *)

Lemma fragment_text (lang : lang_spec) (id : string) (bs : list byte) :
  text_of (fragment_calls lang id bs) =
  (export_line lang id ++ String LF
     (label_line id ++ String LF
        (lines_then (byte_lines lang bs)
           (String LF (String LF
              (export_size_line lang id ++ String LF
                 (size_label_line lang id ++ String LF "")))))))%string.
Proof.
  unfold fragment_calls. rewrite !text_of_app.
  pose proof (body_text_groups lang (List.length bs) bs 0
                (text_of (footer_calls lang id)) (Nat.le_refl _)) as Hb.
  change (8 * 0)%nat with 0%nat in Hb. rewrite Hb. clear Hb.
  fold (groups bs). fold (byte_lines lang bs).
  unfold header_calls, footer_calls, export_line, label_line,
    export_size_line, size_label_line.
  cbn [text_of fold_right call_text call_fmt call_args sprintf
       export_call label_call export_size_call size_label_call
       fmt_export fmt_label fmt_export_size fmt_size_label].
  unfold nl. rewrite !append_assoc. cbn [append]. reflexivity.
Qed.

Lemma fragment_lines (lang : lang_spec) (id : string) (bs : list byte) :
  clean_lang lang = true -> no_lf id = true ->
  lines (text_of (fragment_calls lang id bs)) =
    [export_line lang id; label_line id; ""]
    ++ byte_lines lang bs
    ++ [""; export_size_line lang id; size_label_line lang id; ""].
Proof.
  intros Hc Hid. apply clean_lang_fields in Hc.
  destruct Hc as (Hdef & Hdiff & Hpre & Hpost).
  rewrite fragment_text.
  rewrite lines_line
    by (unfold export_line; rewrite !no_lf_app, Hpre, Hid, Hpost; reflexivity).
  rewrite lines_line
    by (unfold label_line; rewrite !no_lf_app, Hid; reflexivity).
  rewrite lines_lines_then.
  - cbn [lines]. rewrite Ascii.eqb_refl.
    rewrite lines_line
      by (unfold export_size_line; rewrite !no_lf_app, Hpre, Hid, Hpost;
          reflexivity).
    rewrite lines_line
      by (unfold size_label_line; rewrite !no_lf_app, Hid, Hdiff;
          reflexivity).
    reflexivity.
  - unfold byte_lines. apply Forall_map, Forall_forall.
    intros g _. now apply no_lf_byte_line.
Qed.

Lemma lines_prefix (a rest : string) :
  no_lf a = true ->
  lines (a ++ rest) =
    match lines rest with
    | l :: ls => (a ++ l)%string :: ls
    | [] => [a]
    end.
Proof.
  pose proof (lines_not_nil rest) as Hne.
  induction a as [|x a IH]; cbn [append lines no_lf]; intro H.
  - destruct (lines rest); [congruence|reflexivity].
  - apply andb_true_iff in H. destruct H as [Hx Ha].
    apply negb_true_iff in Hx. rewrite Hx, (IH Ha).
    destruct (lines rest); [congruence|reflexivity].
Qed.

Lemma lines_lines_then_end (ls : list string) :
  Forall (fun l => no_lf l = true) ls ->
  lines (lines_then ls "") = "" :: ls.
Proof.
  induction 1 as [|l ls Hl Hls IH]; [reflexivity|].
  cbn [lines_then fold_right]. fold (lines_then ls "").
  cbn [lines]. rewrite Ascii.eqb_refl.
  rewrite lines_prefix by exact Hl. rewrite IH.
  now rewrite append_nil_r.
Qed.

(** The lines written by the loop: each is begun by a line feed, so the
    text starts with an empty piece, the end of the label line. *)
Lemma body_lines (lang : lang_spec) (bs : list byte) :
  no_lf (def lang) = true ->
  lines (text_of (body_calls lang 0 bs)) = "" :: byte_lines lang bs.
Proof.
  intro Hd.
  pose proof (body_text_groups lang (List.length bs) bs 0 ""
                (Nat.le_refl _)) as Hb.
  change (8 * 0)%nat with 0%nat in Hb. rewrite append_nil_r in Hb.
  rewrite Hb. fold (groups bs). fold (byte_lines lang bs).
  apply lines_lines_then_end.
  unfold byte_lines. apply Forall_map, Forall_forall.
  intros g _. now apply no_lf_byte_line.
Qed.

Lemma body_calls_nth (lang : lang_spec) (bs : list byte) :
  forall (i0 k : nat) (b : byte),
  nth_error bs k = Some b ->
  nth_error (body_calls lang i0 bs) (2 * k) =
    Some (sep_call lang (Z.of_nat (i0 + k)))
  /\ nth_error (body_calls lang i0 bs) (S (2 * k)) = Some (byte_call b).
Proof.
  induction bs as [|x bs IH]; intros i0 k b Hk.
  - destruct k; discriminate Hk.
  - destruct k as [|k].
    + cbn in Hk. injection Hk as ->. rewrite Nat.add_0_r.
      split; reflexivity.
    + cbn [nth_error] in Hk. destruct (IH (S i0) k b Hk) as [H1 H2].
      replace (2 * S k)%nat with (S (S (2 * k))) by lia.
      replace (i0 + S k)%nat with (S i0 + k)%nat by lia.
      split; [exact H1|exact H2].
Qed.

Lemma blank_app (a b : string) : blank (a ++ b) = blank a && blank b.
Proof.
  induction a as [|x a IH]; cbn [append blank]; [reflexivity|].
  now rewrite IH, andb_assoc.
Qed.

(** ** Byte literals *)

Lemma emit_byte_unlimited (lang : lang_spec) (b : byte) (cnt : Z)
  (fin : FILE_in) (out : FILE_out) (k : Z -> FILE_out -> convert_result) :
  budget out = None ->
  emit_byte lang b cnt fin out k =
    k (size_incr cnt)
      {| calls := calls out
                  ++ [if negb (cnt =? 0) && negb (cnt mod ELEMS_PER_LINE =? 0)
                      then comma_call else directive_call lang;
                      byte_call b];
         budget := None |}.
Proof.
  intro Hb. unfold emit_byte, fprintf. rewrite Hb.
  destruct (negb (cnt =? 0) && negb (cnt mod ELEMS_PER_LINE =? 0));
    cbn [budget calls];
    repeat (replace (Z.of_nat _ <? 0) with false
              by (symmetry; apply Z.ltb_ge; lia));
    rewrite <- app_assoc; reflexivity.
Qed.

Lemma byte_call_numeral (b : byte) :
  exists digits : string,
    call_text (byte_call b) = ("0x" ++ digits)%string
    /\ hex_value digits = Some (Byte.to_N b)
    /\ unpadded digits = true
    /\ (String.length digits <= 2)%nat.
Proof.
  exists (render_x (Byte.to_N b)).
  destruct b; vm_compute; repeat split; apply le_n || apply le_S, le_n.
Qed.

(** C2: the emitter writes a byte [b] as [0x] followed by the lowercase
    hexadecimal numeral of [b], without padding.  The loop body, on a
    device that accepts its calls, appends the separator and then the call
    [0x%x] on [b]; in a conversion of [bs] the call after the separator of
    the byte at position [c] is that call on that byte, and its text is
    [0x] and a numeral of one or two lowercase digits whose value is the
    byte and which does not start with a needless 0.  So 0 is written
    [0x0], 10 [0xa] and 255 [0xff]. *)
Theorem byte_literal_lowercase_hex :
  (forall b : byte,
     exists digits : string,
       call_text (byte_call b) = ("0x" ++ digits)%string
       /\ hex_value digits = Some (Byte.to_N b)
       /\ unpadded digits = true
       /\ (String.length digits <= 2)%nat)
  /\ (forall b : byte, (Byte.to_N b < 256)%N)
  /\ call_text (byte_call x00) = "0x0"
  /\ call_text (byte_call x0a) = "0xa"
  /\ call_text (byte_call xff) = "0xff"
  /\ (forall (lang : lang_spec) (b : byte) (cnt : Z) (fin : FILE_in)
             (out : FILE_out) (k : Z -> FILE_out -> convert_result),
        budget out = None ->
        emit_byte lang b cnt fin out k =
          k (size_incr cnt)
            {| calls :=
                 calls out
                 ++ [if negb (cnt =? 0) && negb (cnt mod ELEMS_PER_LINE =? 0)
                     then comma_call else directive_call lang;
                     byte_call b];
               budget := None |})
  /\ (forall (args : list string) (lang : lang_spec) (bs : list byte)
             (b0 : byte) (c : nat) (b : byte),
        nth_error bs c = Some b ->
        exists (cl : call) (digits : string),
          nth_error
            (calls (out_after (convert args (file_of bs) (fresh_out None)
                                 lang b0))) (3 + 2 * c) = Some cl
          /\ cl = byte_call b
          /\ call_text cl = ("0x" ++ digits)%string
          /\ hex_value digits = Some (Byte.to_N b)
          /\ unpadded digits = true
          /\ (String.length digits <= 2)%nat)
  /\ (forall (args : list string) (lang : lang_spec) (b b0 : byte),
        contents (out_after (convert args (file_of [b]) (fresh_out None)
                               lang b0)) =
        (text_of (header_calls lang (arg_at args IN_FILENAME_IDX))
         ++ (nl ++ def lang ++ tab ++ call_text (byte_call b))
         ++ text_of (footer_calls lang (arg_at args IN_FILENAME_IDX)))%string)
  /\ lines (contents (out_after
        (convert ["btoa"; "nasm"; "t"] (file_of [x00; x0a; xff])
           (fresh_out None) nasm_spec x00))) =
     ["[GLOBAL t_file]"; "t_file:"; "";
      String.concat tab ["db"; "0x0,"; "0xa,"; "0xff"];
      ""; "[GLOBAL t_file_size]"; "t_file_size: dd $-t_file"; ""].
Proof.
  split; [exact byte_call_numeral|].
  split; [intro b; destruct b; reflexivity|].
  split; [reflexivity|]. split; [reflexivity|]. split; [reflexivity|].
  split; [exact emit_byte_unlimited|]. split; [|split].
  - intros args lang bs b0 c b Hc.
    destruct (convert_whole_file args lang bs b0) as (_ & Hcalls & _).
    destruct (byte_call_numeral b) as (digits & Ht & Hv & Hu & Hl).
    exists (byte_call b), digits. rewrite Hcalls.
    split; [|repeat split; assumption].
    unfold fragment_calls, header_calls.
    destruct (body_calls_nth lang bs 0 c b Hc) as [_ H2].
    assert (Hlt : (c < List.length bs)%nat)
      by (apply nth_error_Some; congruence).
    change (3 + 2 * c)%nat with (S (S (S (2 * c)))).
    cbn [app].
    change (nth_error (?x :: ?y :: ?l) (S (S ?n))) with (nth_error l n).
    rewrite nth_error_app1 by (rewrite length_body_calls; lia).
    exact H2.
  - intros args lang b b0.
    destruct (convert_whole_file args lang [b] b0) as (_ & Hcalls & _).
    unfold contents. rewrite Hcalls. unfold fragment_calls.
    rewrite !text_of_app. f_equal. f_equal.
    cbn [body_calls text_of fold_right].
    change (sep_call lang (Z.of_nat 0)) with (directive_call lang).
    cbn [call_text directive_call call_fmt call_args sprintf fmt_newline_def].
    rewrite !append_assoc.
    rewrite (append_nil_r (call_text (byte_call b))). reflexivity.
  - reflexivity.
Qed.

(** The byte 10 in second place: the sixth call writes [0xa]. *)
Lemma byte_literal_lowercase_hex_witness :
  exists cl : call,
    nth_error
      (calls (out_after (convert ["btoa"; "nasm"; "t"]
                           (file_of [x00; x0a; xff]) (fresh_out None)
                           nasm_spec x00))) 5 = Some cl
    /\ call_text cl = "0xa".
Proof.
  destruct (proj1 (proj2 (proj2 (proj2 (proj2 (proj2 (proj2
              byte_literal_lowercase_hex))))))
              ["btoa"; "nasm"; "t"] nasm_spec [x00; x0a; xff] x00
              1%nat x0a eq_refl)
    as (cl & digits & Hn & Hcl & _).
  exists cl. split; [exact Hn|]. rewrite Hcl. reflexivity.
Defined.

(** C1: the byte literals come in lines of eight.  The byte at running
    count [c] follows a line feed, the byte directive and a tab when [c = 0]
    or [c mod 8 = 0], and a comma and a tab otherwise; so the loop writes
    [ceil (n / 8)] directive lines for [n] bytes, the [j]-th of them holds
    the literals of bytes [8 j .. 8 j + 7], separated by commas, and every
    one of them but the last holds exactly eight. *)
Theorem convert_lines_of_eight (nm : string) (lang : lang_spec)
  (args : list string) (bs : list byte) (b0 : byte) :
  lookup_lang_spec nm = Some lang ->
  let id := arg_at args IN_FILENAME_IDX in
  let r := convert args (file_of bs) (fresh_out None) lang b0 in
  ret r = 0
  /\ (forall (c : nat) (b : byte),
        nth_error bs c = Some b ->
        nth_error (calls (out_after r)) (2 + 2 * c) =
          Some (if (Z.of_nat c =? 0) || (Z.of_nat c mod ELEMS_PER_LINE =? 0)
                then directive_call lang else comma_call)
        /\ nth_error (calls (out_after r)) (3 + 2 * c) = Some (byte_call b))
  /\ call_text (directive_call lang) = (nl ++ def lang ++ tab)%string
  /\ call_text comma_call = ("," ++ tab)%string
  /\ contents (out_after r) =
       (text_of (header_calls lang id)
        ++ text_of (body_calls lang 0 bs)
        ++ text_of (footer_calls lang id))%string
  /\ lines (text_of (body_calls lang 0 bs)) = "" :: byte_lines lang bs
  /\ List.length (byte_lines lang bs) = ((List.length bs + 7) / 8)%nat
  /\ (forall j : nat,
        (j < List.length (byte_lines lang bs))%nat ->
        nth j (byte_lines lang bs) "" =
          byte_line lang (firstn 8 (skipn (8 * j) bs))
        /\ (1 <= List.length (firstn 8 (skipn (8 * j) bs)) <= 8)%nat)
  /\ (forall j : nat,
        (S j < List.length (byte_lines lang bs))%nat ->
        List.length (firstn 8 (skipn (8 * j) bs)) = 8%nat)
  /\ (no_lf id = true ->
      lines (contents (out_after r)) =
        [export_line lang id; label_line id; ""]
        ++ byte_lines lang bs
        ++ [""; export_size_line lang id; size_label_line lang id; ""]).
Proof.
  intros Hl id r.
  destruct (convert_whole_file args lang bs b0) as (Hret & Hcalls & _).
  fold id in Hcalls. fold r in Hret, Hcalls.
  pose proof (lookup_clean nm lang Hl) as Hclean.
  split; [exact Hret|].
  split; [|split; [|split; [|split; [|split; [|split; [|split; [|split]]]]]]].
  - intros c b Hc. rewrite Hcalls. unfold fragment_calls, header_calls.
    destruct (body_calls_nth lang bs 0 c b Hc) as [H1 H2].
    assert (Hlt : (c < List.length bs)%nat)
      by (apply nth_error_Some; congruence).
    assert (Hsk : forall (x y : call) l n,
              nth_error (x :: y :: l) (S (S n)) = nth_error l n)
      by reflexivity.
    change (2 + 2 * c)%nat with (S (S (2 * c))).
    change (3 + 2 * c)%nat with (S (S (S (2 * c)))).
    cbn [app]. rewrite !Hsk.
    rewrite !nth_error_app1 by (rewrite length_body_calls; lia).
    rewrite H1, H2. split; reflexivity.
  - reflexivity.
  - reflexivity.
  - unfold contents. rewrite Hcalls. unfold fragment_calls.
    now rewrite !text_of_app.
  - apply body_lines. now apply clean_lang_fields in Hclean.
  - unfold byte_lines. rewrite length_map. apply groups_length.
  - intros j Hj. unfold byte_lines in *. rewrite length_map in Hj.
    split.
    + rewrite (nth_indep _ "" (byte_line lang [])) by (now rewrite length_map).
      rewrite map_nth. f_equal. now apply groups_nth.
    + rewrite <- groups_nth by exact Hj.
      destruct (Nat.eq_dec (S j) (List.length (groups bs))) as [He|Hn].
      * destruct (groups_last bs j He) as [-> ?]. lia.
      * rewrite groups_full by lia. lia.
  - intros j Hj. unfold byte_lines in Hj. rewrite length_map in Hj.
    rewrite <- groups_nth by lia. now apply groups_full.
  - intro Hid. unfold contents. rewrite Hcalls.
    apply fragment_lines; [exact Hclean|exact Hid].
Qed.

(** Ten bytes for as: a line of eight and a line of two. *)
Lemma convert_lines_of_eight_witness :
  lines (contents (out_after (convert ["btoa"; "as"; "t"]
    (file_of [x00; x01; x02; x03; x04; x05; x06; x07; x08; x09])
    (fresh_out None) as_spec x00))) =
  [".globl t_file"; "t_file:"; "";
   String.concat tab [".byte"; "0x0,"; "0x1,"; "0x2,"; "0x3,"; "0x4,";
                      "0x5,"; "0x6,"; "0x7"];
   String.concat tab [".byte"; "0x8,"; "0x9"];
   ""; ".globl t_file_size"; "t_file_size: .long .-t_file"; ""].
Proof.
  apply (convert_lines_of_eight "as" as_spec ["btoa"; "as"; "t"]
           [x00; x01; x02; x03; x04; x05; x06; x07; x08; x09] x00 eq_refl).
  reflexivity.
Defined.

(** C3, as the code has it: for a supported dialect and an empty input
    [convert] makes four calls and no other, the export directive and the
    label of the data and the export directive and the label of the size,
    with nothing for a byte between the two labels; the text is these four
    lines and two empty ones between the labels, and the size label carries
    the size template of the dialect's table entry.  When the identifier
    holds no line feed these four are the lines of the text that are not
    blank. *)
Theorem convert_empty_input (nm : string) (lang : lang_spec)
  (args : list string) (b0 : byte) :
  lookup_lang_spec nm = Some lang ->
  let id := arg_at args IN_FILENAME_IDX in
  let r := convert args (file_of []) (fresh_out None) lang b0 in
  ret r = 0
  /\ count r = 0
  /\ calls (out_after r) =
       [export_call lang id; label_call id;
        export_size_call lang id; size_label_call lang id]
  /\ contents (out_after r) =
       (export_line lang id ++ nl ++ label_line id ++ nl
        ++ nl ++ nl
        ++ export_size_line lang id ++ nl
        ++ size_label_line lang id ++ nl)%string
  /\ size_label_line lang id =
       (id ++ "_file_size: " ++ diff lang ++ id ++ "_file")%string
  /\ find (fun entry => String.eqb (name entry) nm) lang_specs = Some lang
  /\ (nm = "nasm" -> diff lang = "dd $-")
  /\ (nm = "fasm" -> diff lang = "dd $-")
  /\ (nm = "as" -> diff lang = ".long .-")
  /\ (no_lf id = true ->
      lines (contents (out_after r)) =
        [export_line lang id; label_line id; ""; "";
         export_size_line lang id; size_label_line lang id; ""]
      /\ filter (fun l => negb (blank l)) (lines (contents (out_after r))) =
           [export_line lang id; label_line id;
            export_size_line lang id; size_label_line lang id]).
Proof.
  intros Hl id r.
  destruct (convert_whole_file args lang [] b0) as (Hret & Hcalls & Hcount).
  fold id in Hcalls. fold r in Hret, Hcalls, Hcount.
  split; [exact Hret|]. split; [exact Hcount|].
  split; [exact Hcalls|]. split.
  { unfold contents. rewrite Hcalls, fragment_text. reflexivity. }
  split; [reflexivity|]. split.
  { rewrite <- lookup_from_find. exact Hl. }
  split; [|split; [|split]];
    try (rewrite lookup_lang_spec_cases in Hl;
         intros ->; cbn in Hl; injection Hl as <-; reflexivity).
  intro Hid.
  assert (Hlines : lines (contents (out_after r)) =
       [export_line lang id; label_line id; ""; "";
        export_size_line lang id; size_label_line lang id; ""]).
  { unfold contents. rewrite Hcalls.
    rewrite fragment_lines; [reflexivity|exact (lookup_clean nm lang Hl)|
                             exact Hid]. }
  split; [exact Hlines|].
  rewrite Hlines. cbn [filter blank negb].
  assert (Hb1 : forall suffix, blank (glob_pre lang ++ suffix) = false).
  { intro suffix. rewrite blank_app.
    destruct (lookup_lang_spec_In nm lang Hl) as [Hin _].
    cbn in Hin. destruct Hin as [<-|[<-|[<-|[]]]]; reflexivity. }
  assert (Hb2 : forall suffix, blank (id ++ String "_" suffix) = false).
  { intro suffix. rewrite blank_app. cbn. apply andb_false_r. }
  unfold export_line, export_size_line, label_line, size_label_line.
  rewrite !Hb1. cbn [append]. rewrite !Hb2. reflexivity.
Qed.

Lemma convert_empty_input_witness :
  lines (contents (out_after (convert ["btoa"; "nasm"; "empty_bin"]
    (file_of []) (fresh_out None) nasm_spec x00))) =
  ["[GLOBAL empty_bin_file]"; "empty_bin_file:"; ""; "";
   "[GLOBAL empty_bin_file_size]";
   "empty_bin_file_size: dd $-empty_bin_file"; ""].
Proof.
  apply (convert_empty_input "nasm" nasm_spec ["btoa"; "nasm"; "empty_bin"]
           x00 eq_refl). reflexivity.
Defined.

(** C3 as stated fails for a file name that holds a line feed: the two
    replacement calls leave it in the identifier, every line with the
    identifier breaks in two, and the text of an empty input then has nine
    lines that are not blank. *)
Lemma convert_empty_input_line_feed :
  let fname := String "a" (String LF "b") in
  let args := sanitize_args ["btoa"; "nasm"; fname] in
  let r := convert args (file_of []) (fresh_out None) nasm_spec x00 in
  lookup_lang_spec "nasm" = Some nasm_spec
  /\ arg_at args IN_FILENAME_IDX = fname
  /\ ret r = 0
  /\ List.length
       (filter (fun l => negb (blank l)) (lines (contents (out_after r))))
     = 9%nat
  /\ List.length
       (filter (fun l => negb (blank l)) (lines (contents (out_after r))))
     <> 4%nat.
Proof. vm_compute. repeat split. discriminate. Qed.

(** ** The identifier *)

Lemma arg_at_store_arg (argv : list string) : forall (i : nat) (s : string),
  arg_at (store_arg argv i s) i =
    if (i <? List.length argv)%nat then s else "".
Proof.
  unfold arg_at. induction argv as [|a argv IH]; intros i s.
  - destruct i; reflexivity.
  - destruct i as [|i]; [reflexivity|]. cbn [store_arg nth List.length].
    rewrite IH. reflexivity.
Qed.

Lemma length_store_arg (argv : list string) : forall (i : nat) (s : string),
  List.length (store_arg argv i s) = List.length argv.
Proof.
  induction argv as [|a argv IH]; intros i s; [reflexivity|].
  destruct i; cbn [store_arg List.length]; [reflexivity|now rewrite IH].
Qed.

Lemma arg_at_beyond (argv : list string) (i : nat) :
  (List.length argv <= i)%nat -> arg_at argv i = "".
Proof. intro H. unfold arg_at. now apply nth_overflow. Qed.

Lemma str_repl_char_dot_dash (s : string) :
  snd (str_repl_char (snd (str_repl_char s "." "_")) "-" "_") =
  replace_dot_dash s.
Proof.
  induction s as [|c s IH]; [reflexivity|].
  cbn [str_repl_char replace_dot_dash].
  destruct (str_repl_char s "." "_") as [n1 s1]. cbn [snd] in IH.
  destruct (Ascii.eqb_spec c "."%char) as [->|Hdot].
  - cbn [snd str_repl_char].
    destruct (str_repl_char s1 "-" "_") as [n2 s2]. cbn [snd] in IH |- *.
    now rewrite IH.
  - cbn [snd str_repl_char].
    destruct (str_repl_char s1 "-" "_") as [n2 s2]. cbn [snd] in IH |- *.
    destruct (Ascii.eqb c "-"); cbn [snd orb]; now rewrite IH.
Qed.

Lemma identifier_replace (argv : list string) :
  identifier argv = replace_dot_dash (arg_at argv IN_FILENAME_IDX).
Proof.
  unfold identifier, sanitize_args, repl_arg.
  rewrite !arg_at_store_arg, length_store_arg.
  destruct (Nat.ltb_spec IN_FILENAME_IDX (List.length argv)) as [Hlt|Hge].
  - apply str_repl_char_dot_dash.
  - now rewrite (arg_at_beyond argv _ Hge).
Qed.

(** ** main *)

Lemma main_fopen_paths (e : env) (argv : list string)
  (path mode : string) (ok : bool) :
  In (Ev_fopen path mode ok) (trace (main e argv)) ->
  (path = arg_at argv IN_FILENAME_IDX /\ mode = "r")
  \/ (path = arg_at argv OUT_FILENAME_IDX /\ mode = "w"
      /\ List.length argv = 4%nat).
Proof.
  split_run; intro H; in_events H; subst;
    try (left; split; reflexivity);
    right; repeat split; try reflexivity;
    match goal with
    | E : (4 =? _) = true |- _ => apply Z.eqb_eq in E; lia
    end.
Qed.

Lemma main_opens_precede_stores (e : env) (argv : list string) :
  opens_precede_stores (trace (main e argv)) false = true.
Proof.
  split_run;
    cbn [app opens_precede_stores negb andb usage print_langs map lang_specs];
    reflexivity.
Qed.

Lemma main_convert_event (e : env) (argv : list string)
  (a : list string) (r : convert_result) :
  In (Ev_convert a r) (trace (main e argv)) ->
  a = sanitize_args argv
  /\ In (Ev_fopen (arg_at argv IN_FILENAME_IDX) "r" true) (trace (main e argv))
  /\ (List.length argv = 4%nat ->
      In (Ev_fopen (arg_at argv OUT_FILENAME_IDX) "w" true)
         (trace (main e argv))).
Proof.
  split_run; intro H; in_events H; subst;
    (split; [reflexivity|split; [find_event|]]);
    intro H4;
    try find_event;
    match goal with
    | E : (4 =? _) = false |- _ => apply Z.eqb_neq in E; lia
    end.
Qed.

(** When the output file cannot be created, [cleanup] is entered with a
    null [out], which is not [stdout], and closes it. *)
Lemma main_output_open_failure_general (e : env) (argv : list string)
  (lang : lang_spec) (fin : FILE_in) :
  List.length argv = 4%nat ->
  lookup_lang_spec (arg_at argv ARCH_NAME_IDX) = Some lang ->
  open_r e (arg_at argv IN_FILENAME_IDX) = Some fin ->
  open_w e (arg_at argv OUT_FILENAME_IDX) = None ->
  final (main e argv) = Undefined
  /\ In (Ev_fopen (arg_at argv IN_FILENAME_IDX) "r" true) (trace (main e argv))
  /\ ~ In Ev_fclose_in (trace (main e argv)).
Proof.
  intros Hlen Hlang Hin Hout. unfold main.
  rewrite Hlen, Hlang, Hin, Hout.
  cbn [Z.of_nat Pos.of_succ_nat Pos.succ Z.ltb Z.gtb Z.eqb Z.compare
       Pos.compare Pos.compare_cont Pos.eqb orb].
  unfold cleanup_panic, cleanup.
  cbn [is_stdout negb fclose_out trace final app].
  split; [reflexivity|]. split; [find_event|].
  intro H. in_events H.
Qed.

(** Every other run ends defined, and closes what it opened and nothing
    else. *)
Lemma main_releases (e : env) (argv : list string) :
  final (main e argv) <> Undefined ->
  (forall path, In (Ev_fopen path "r" true) (trace (main e argv)) ->
                In Ev_fclose_in (trace (main e argv)))
  /\ (forall path, In (Ev_fopen path "w" true) (trace (main e argv)) ->
                   In Ev_fclose_out (trace (main e argv)))
  /\ (In Ev_fclose_in (trace (main e argv)) ->
      In (Ev_fopen (arg_at argv IN_FILENAME_IDX) "r" true)
         (trace (main e argv)))
  /\ (In Ev_fclose_out (trace (main e argv)) ->
      In (Ev_fopen (arg_at argv OUT_FILENAME_IDX) "w" true)
         (trace (main e argv))).
Proof.
  split_run; intro Hdef; try congruence;
    (split; [|split; [|split]]);
    try (intros path H); try (intro H); try find_event; in_events H.
Qed.

Lemma main_undefined_only (e : env) (argv : list string) :
  final (main e argv) = Undefined ->
  List.length argv = 4%nat
  /\ open_w e (arg_at argv OUT_FILENAME_IDX) = None.
Proof.
  split_run; intro H; try discriminate H.
  split; [|reflexivity].
  match goal with
  | E : (4 =? _) = true |- _ => apply Z.eqb_eq in E; lia
  end.
Qed.

Lemma basename_plain (s : string) : has_slash s = false -> basename s = s.
Proof.
  destruct s as [|c s]; [reflexivity|]. cbn [has_slash basename].
  intro H. apply orb_false_iff in H. destruct H as [Hc Hs].
  now rewrite Hs, Hc.
Qed.

(** C5, as the code has it: the identifier of the two labels is the input
    file name argument as it was given, directory part included, with every
    [.] and [-] replaced by [_]; [convert] is called with it, the data
    label is the identifier followed by [_file] and the size label the
    identifier followed by [_file_size].  For [login-screen.bmp] these are
    [login_screen_bmp], [login_screen_bmp_file] and
    [login_screen_bmp_file_size]. *)
Theorem identifier_from_argument (e : env) (argv : list string) :
  identifier argv = replace_dot_dash (arg_at argv IN_FILENAME_IDX)
  /\ (forall a r,
        In (Ev_convert a r) (trace (main e argv)) ->
        arg_at a IN_FILENAME_IDX = identifier argv)
  /\ (forall lang bs b0,
        calls (out_after (convert (sanitize_args argv) (file_of bs)
                            (fresh_out None) lang b0)) =
          [export_call lang (identifier argv); label_call (identifier argv)]
          ++ body_calls lang 0 bs
          ++ [export_size_call lang (identifier argv);
              size_label_call lang (identifier argv)])
  /\ (forall id, call_text (label_call id) = (id ++ "_file:" ++ nl)%string)
  /\ (forall lang id,
        call_text (size_label_call lang id) =
          (id ++ "_file_size: " ++ diff lang ++ id ++ "_file" ++ nl)%string)
  /\ identifier ["btoa"; "nasm"; "login-screen.bmp"] = "login_screen_bmp"
  /\ call_text (label_call (identifier ["btoa"; "nasm"; "login-screen.bmp"]))
       = ("login_screen_bmp_file:" ++ nl)%string
  /\ call_text (size_label_call nasm_spec
                  (identifier ["btoa"; "nasm"; "login-screen.bmp"]))
       = ("login_screen_bmp_file_size: dd $-login_screen_bmp_file" ++ nl)%string.
Proof.
  split; [apply identifier_replace|]. split.
  { intros a r H. apply main_convert_event in H. destruct H as [-> _].
    reflexivity. }
  split.
  { intros lang bs b0.
    destruct (convert_whole_file (sanitize_args argv) lang bs b0)
      as (_ & H & _).
    exact H. }
  split.
  { intro id. unfold call_text.
    cbn [label_call call_fmt call_args fmt_label sprintf].
    now rewrite append_nil_r. }
  split.
  { intros lang id. unfold call_text.
    cbn [size_label_call call_fmt call_args fmt_size_label sprintf].
    now rewrite append_nil_r. }
  repeat split; reflexivity.
Qed.

Lemma identifier_from_argument_witness :
  let argv := ["btoa"; "nasm"; "login-screen.bmp"] in
  let a := ["btoa"; "nasm"; "login_screen_bmp"] in
  let r := convert a (file_of [x41]) (fresh_out None) nasm_spec x00 in
  In (Ev_convert a r) (trace (main plain_env argv))
  /\ arg_at a IN_FILENAME_IDX = identifier argv.
Proof.
  intros argv a r.
  assert (H : In (Ev_convert a r) (trace (main plain_env argv)))
    by (vm_compute; auto 10).
  split; [exact H|].
  exact (proj1 (proj2 (identifier_from_argument plain_env argv)) a r H).
Defined.

(** C5 as stated fails for an argument with a directory part: the
    identifier then is not made from the base name. *)
Lemma identifier_keeps_directory :
  identifier ["btoa"; "nasm"; "img/logo.bmp"] = "img/logo_bmp"
  /\ replace_dot_dash (basename "img/logo.bmp") = "logo_bmp"
  /\ identifier ["btoa"; "nasm"; "img/logo.bmp"]
     <> replace_dot_dash
          (basename (arg_at ["btoa"; "nasm"; "img/logo.bmp"] IN_FILENAME_IDX)).
Proof. repeat split. discriminate. Qed.

(** C8 fails when the output file cannot be created: [cleanup] then closes
    a null [out], the run has no defined behaviour from there on, and the
    input file it had opened is never closed by it. *)
Theorem main_output_open_failure :
  let argv := ["btoa"; "nasm"; "in.bin"; "/missing/out.asm"] in
  cleanup (Some (file_of [x41])) Ptr_null = None
  /\ final (main no_output_env argv) = Undefined
  /\ In (Ev_fopen "in.bin" "r" true) (trace (main no_output_env argv))
  /\ In (Ev_fopen "/missing/out.asm" "w" false)
        (trace (main no_output_env argv))
  /\ ~ In Ev_fclose_in (trace (main no_output_env argv)).
Proof.
  intro argv. split; [reflexivity|].
  destruct (main_output_open_failure_general no_output_env argv nasm_spec
              (file_of [x41]) eq_refl eq_refl eq_refl eq_refl)
    as (Hf & Hi & Hn).
  split; [exact Hf|]. split; [exact Hi|]. split; [|exact Hn].
  vm_compute. auto 10.
Qed.

(** C10: [main] opens the input file, and the output file when one is
    given, under the names found in [argv] on entry: every [fopen] is on
    [argv[2]] for reading or on [argv[3]] for writing, none comes after a
    store into [argv], and when [convert] runs, with the replaced name in
    [args[2]], both files have been opened under the original names. *)
Theorem main_opens_original_names (e : env) (argv : list string) :
  (forall path mode ok,
     In (Ev_fopen path mode ok) (trace (main e argv)) ->
     (path = arg_at argv IN_FILENAME_IDX /\ mode = "r")
     \/ (path = arg_at argv OUT_FILENAME_IDX /\ mode = "w"
         /\ List.length argv = 4%nat))
  /\ opens_precede_stores (trace (main e argv)) false = true
  /\ (forall a r,
        In (Ev_convert a r) (trace (main e argv)) ->
        arg_at a IN_FILENAME_IDX =
          replace_dot_dash (arg_at argv IN_FILENAME_IDX)
        /\ In (Ev_fopen (arg_at argv IN_FILENAME_IDX) "r" true)
              (trace (main e argv))
        /\ (List.length argv = 4%nat ->
            In (Ev_fopen (arg_at argv OUT_FILENAME_IDX) "w" true)
               (trace (main e argv)))).
Proof.
  split; [intros path mode ok; apply main_fopen_paths|].
  split; [apply main_opens_precede_stores|].
  intros a r H. destruct (main_convert_event e argv a r H) as (-> & Hi & Ho).
  split; [apply identifier_replace|]. split; assumption.
Qed.

(** With [a.b-c] as the input name: the file opened is [a.b-c], the
    identifier is [a_b_c]. *)
Lemma main_opens_original_names_witness :
  let argv := ["btoa"; "as"; "a.b-c"; "out.s"] in
  let a := ["btoa"; "as"; "a_b_c"; "out.s"] in
  let r := convert a (file_of [x41]) (fresh_out None) as_spec x00 in
  In (Ev_convert a r) (trace (main plain_env argv))
  /\ In (Ev_fopen "a.b-c" "r" true) (trace (main plain_env argv))
  /\ In (Ev_fopen "out.s" "w" true) (trace (main plain_env argv)).
Proof.
  intros argv a r.
  assert (H : In (Ev_convert a r) (trace (main plain_env argv)))
    by (vm_compute; auto 10).
  split; [exact H|].
  destruct (proj2 (proj2 (main_opens_original_names plain_env argv)) a r H)
    as (_ & Hi & Ho).
  split; [exact Hi|exact (Ho eq_refl)].
Defined.

(** * Further properties *)

(** ** str_repl_char and the identifier *)

Lemma occurrences_bounds (c : ascii) (s : string) :
  0 <= occurrences c s <= Z.of_nat (String.length s).
Proof.
  induction s as [|x s IH]; cbn [occurrences String.length]; [lia|].
  destruct (Ascii.eqb x c); lia.
Qed.

Lemma str_repl_char_fst (str : string) (old new : ascii) :
  fst (str_repl_char str old new) = occurrences old str.
Proof.
  induction str as [|c str IH]; [reflexivity|].
  cbn [str_repl_char occurrences].
  destruct (str_repl_char str old new) as [n s']. cbn [fst] in IH.
  destruct (Ascii.eqb c old); cbn [fst]; lia.
Qed.

Lemma str_repl_char_get (str : string) (old new : ascii) : forall i : nat,
  String.get i (snd (str_repl_char str old new)) =
  option_map (fun c => if Ascii.eqb c old then new else c) (String.get i str).
Proof.
  induction str as [|c str IH]; intro i; [reflexivity|].
  cbn [str_repl_char].
  destruct (str_repl_char str old new) as [n s']. cbn [snd] in IH.
  destruct (Ascii.eqb c old) eqn:E; cbn [snd];
    (destruct i as [|i]; cbn [String.get option_map];
     [now rewrite E|apply IH]).
Qed.

Lemma str_repl_char_length (str : string) (old new : ascii) :
  String.length (snd (str_repl_char str old new)) = String.length str.
Proof.
  induction str as [|c str IH]; [reflexivity|].
  cbn [str_repl_char].
  destruct (str_repl_char str old new) as [n s']. cbn [snd] in IH.
  destruct (Ascii.eqb c old); cbn [snd String.length]; now rewrite IH.
Qed.

Lemma str_repl_char_c_string (str : string) (old new : ascii) :
  c_string str = true -> new <> NUL ->
  c_string (snd (str_repl_char str old new)) = true.
Proof.
  unfold c_string. intros Hs Hn.
  induction str as [|c str IH]; [reflexivity|].
  cbn [string_forall] in Hs. apply andb_true_iff in Hs.
  destruct Hs as [Hc Hs]. cbn [str_repl_char].
  destruct (str_repl_char str old new) as [n s']. cbn [snd] in IH.
  destruct (Ascii.eqb c old); cbn [snd string_forall];
    rewrite (IH Hs), andb_true_r; [|exact Hc].
  apply negb_true_iff, Ascii.eqb_neq. exact Hn.
Qed.

(** X1: on a C string, with a replacement other than NUL,
    [str_repl_char] returns the number of occurrences of [old] in the
    string and leaves a C string of the same length in which exactly the
    characters equal to [old] have become [new]; for a string whose length
    fits an [int], so does the number returned. *)
Theorem str_repl_char_result (str : string) (old new : ascii) :
  c_string str = true ->
  new <> NUL ->
  Z.of_nat (String.length str) <= INT_MAX ->
  let r := str_repl_char str old new in
  fst r = occurrences old str
  /\ 0 <= fst r <= INT_MAX
  /\ c_string (snd r) = true
  /\ String.length (snd r) = String.length str
  /\ (forall i : nat,
        String.get i (snd r) =
        option_map (fun c => if Ascii.eqb c old then new else c)
                   (String.get i str)).
Proof.
  intros Hs Hn Hlen r. subst r.
  pose proof (occurrences_bounds old str) as Hb.
  rewrite str_repl_char_fst.
  split; [reflexivity|]. split; [lia|].
  split; [now apply str_repl_char_c_string|].
  split; [apply str_repl_char_length|apply str_repl_char_get].
Qed.

Lemma str_repl_char_result_witness :
  str_repl_char "a.b.c" "." "_" = (2, "a_b_c")
  /\ fst (str_repl_char "a.b.c" "." "_") = occurrences "." "a.b.c".
Proof.
  split; [reflexivity|].
  apply (str_repl_char_result "a.b.c" "." "_");
    [reflexivity|discriminate|vm_compute; discriminate].
Defined.

Lemma str_repl_char_gone (str : string) (old new : ascii) :
  old <> new -> occurrences old (snd (str_repl_char str old new)) = 0.
Proof.
  intro Hne. induction str as [|c str IH]; [reflexivity|].
  cbn [str_repl_char].
  destruct (str_repl_char str old new) as [n s']. cbn [snd] in IH.
  destruct (Ascii.eqb c old) eqn:E; cbn [snd occurrences]; rewrite IH.
  - destruct (Ascii.eqb_spec new old); [congruence|reflexivity].
  - now rewrite E.
Qed.

Lemma str_repl_char_absent (str : string) (old new : ascii) :
  occurrences old str = 0 -> str_repl_char str old new = (0, str).
Proof.
  induction str as [|c str IH]; [reflexivity|].
  cbn [occurrences str_repl_char]. intro H.
  pose proof (occurrences_bounds old str) as Hb.
  destruct (Ascii.eqb c old); [lia|].
  rewrite IH by lia. reflexivity.
Qed.

(** X2: when [old] and [new] differ, [str_repl_char] leaves no [old] in the
    string, a second call finds nothing to replace and changes nothing, and
    the call returns 0 exactly when it left the string as it was. *)
Theorem str_repl_char_clears (str : string) (old new : ascii) :
  old <> new ->
  let r := str_repl_char str old new in
  occurrences old (snd r) = 0
  /\ str_repl_char (snd r) old new = (0, snd r)
  /\ (fst r = 0 <-> snd r = str).
Proof.
  intros Hne r. subst r.
  pose proof (str_repl_char_gone str old new Hne) as Hg.
  split; [exact Hg|]. split; [now apply str_repl_char_absent|].
  rewrite str_repl_char_fst. split.
  - intro H0. now rewrite (str_repl_char_absent str old new H0).
  - intro Heq. rewrite Heq in Hg. exact Hg.
Qed.

Lemma str_repl_char_clears_witness :
  occurrences "-" (snd (str_repl_char "a-b-c" "-" "_")) = 0.
Proof.
  apply (str_repl_char_clears "a-b-c" "-" "_"). discriminate.
Defined.

Lemma replace_dot_dash_length (s : string) :
  String.length (replace_dot_dash s) = String.length s.
Proof. induction s as [|c s IH]; cbn; [reflexivity|now rewrite IH]. Qed.

Lemma replace_dot_dash_no_dot (s : string) :
  occurrences "." (replace_dot_dash s) = 0
  /\ occurrences "-" (replace_dot_dash s) = 0.
Proof.
  induction s as [|c s [IH1 IH2]]; [split; reflexivity|].
  cbn [replace_dot_dash occurrences]. rewrite IH1, IH2.
  destruct (Ascii.eqb_spec c "."%char) as [->|H1]; [split; reflexivity|].
  destruct (Ascii.eqb_spec c "-"%char) as [->|H2]; [split; reflexivity|].
  cbn [orb]. apply Ascii.eqb_neq in H1, H2. rewrite H1, H2.
  split; reflexivity.
Qed.

Lemma replace_dot_dash_fixed (s : string) :
  occurrences "." s = 0 -> occurrences "-" s = 0 -> replace_dot_dash s = s.
Proof.
  induction s as [|c s IH]; [reflexivity|].
  cbn [occurrences replace_dot_dash]. intros H1 H2.
  pose proof (occurrences_bounds "." s). pose proof (occurrences_bounds "-" s).
  destruct (Ascii.eqb c "."); [lia|]. destruct (Ascii.eqb c "-"); [lia|].
  cbn [orb]. rewrite IH by lia. reflexivity.
Qed.

Lemma replace_dot_dash_ident (s : string) :
  string_forall name_char s = true ->
  string_forall ident_char (replace_dot_dash s) = true.
Proof.
  induction s as [|c s IH]; [reflexivity|].
  cbn [string_forall replace_dot_dash]. intro H.
  apply andb_true_iff in H. destruct H as [Hc Hs].
  rewrite (IH Hs), andb_true_r. unfold name_char in Hc.
  destruct (Ascii.eqb c "." || Ascii.eqb c "-") eqn:E; [reflexivity|].
  apply orb_false_iff in E. destruct E as [E1 E2].
  now rewrite E1, E2, !orb_false_r in Hc.
Qed.

(** X3: the identifier has the length of the file name argument and holds
    no dot and no dash; the other characters are those of the argument, so
    an argument made of letters, digits, underscores, dots and dashes gives
    an identifier made of letters, digits and underscores; running the two
    replacement calls again changes nothing. *)
Theorem identifier_is_clean (argv : list string) :
  String.length (identifier argv) =
    String.length (arg_at argv IN_FILENAME_IDX)
  /\ occurrences "." (identifier argv) = 0
  /\ occurrences "-" (identifier argv) = 0
  /\ (forall (i : nat) (c : ascii),
        String.get i (arg_at argv IN_FILENAME_IDX) = Some c ->
        c <> "."%char -> c <> "-"%char ->
        String.get i (identifier argv) = Some c)
  /\ (string_forall name_char (arg_at argv IN_FILENAME_IDX) = true ->
      string_forall ident_char (identifier argv) = true)
  /\ identifier (sanitize_args argv) = identifier argv.
Proof.
  pose proof (identifier_replace argv) as Hid.
  destruct (replace_dot_dash_no_dot (arg_at argv IN_FILENAME_IDX))
    as [Hdot Hdash].
  split; [rewrite Hid; apply replace_dot_dash_length|].
  split; [now rewrite Hid|]. split; [now rewrite Hid|]. split.
  { intros i c Hget Hd1 Hd2. rewrite Hid.
    rewrite <- str_repl_char_dot_dash, !str_repl_char_get, Hget.
    cbn [option_map].
    apply Ascii.eqb_neq in Hd1, Hd2. rewrite Hd1, Hd2. reflexivity. }
  split; [rewrite Hid; apply replace_dot_dash_ident|].
  rewrite (identifier_replace (sanitize_args argv)).
  fold (identifier argv). rewrite Hid.
  now apply replace_dot_dash_fixed.
Qed.

Lemma identifier_is_clean_witness :
  string_forall ident_char
    (identifier ["btoa"; "nasm"; "login-screen.v2.bmp"]) = true
  /\ String.get 0 (identifier ["btoa"; "nasm"; "login-screen.v2.bmp"])
     = Some "l"%char.
Proof.
  split.
  - apply (identifier_is_clean ["btoa"; "nasm"; "login-screen.v2.bmp"]).
    reflexivity.
  - apply (proj1 (proj2 (proj2 (proj2
      (identifier_is_clean ["btoa"; "nasm"; "login-screen.v2.bmp"])))));
      [reflexivity|discriminate|discriminate].
Defined.

Lemma arg_at_store_arg_other (argv : list string) :
  forall (i j : nat) (s : string),
  i <> j -> arg_at (store_arg argv i s) j = arg_at argv j.
Proof.
  unfold arg_at. induction argv as [|a argv IH]; intros i j s Hij.
  - reflexivity.
  - destruct i as [|i], j as [|j]; try reflexivity; [congruence|].
    cbn [store_arg nth]. apply IH. congruence.
Qed.

(** X4: the two replacement calls of [main] rewrite [argv[2]] and nothing
    else: the argument count and every other argument, the dialect name and
    the output file name among them, are as they were. *)
Theorem sanitize_args_others (argv : list string) (j : nat) :
  j <> IN_FILENAME_IDX ->
  arg_at (sanitize_args argv) j = arg_at argv j
  /\ List.length (sanitize_args argv) = List.length argv.
Proof.
  intro Hj. unfold sanitize_args, repl_arg. split.
  - rewrite !arg_at_store_arg_other by congruence. reflexivity.
  - now rewrite !length_store_arg.
Qed.

Lemma sanitize_args_others_witness :
  arg_at (sanitize_args ["btoa"; "as"; "a.b"; "out-1.s"]) OUT_FILENAME_IDX
  = "out-1.s".
Proof.
  apply (sanitize_args_others ["btoa"; "as"; "a.b"; "out-1.s"]
           OUT_FILENAME_IDX).
  discriminate.
Defined.

(** ** The help text and the table *)

(** X5: the list of dialects printed by [print_langs] names exactly the
    dialects that [lookup_lang_spec] accepts, each once and in the order of
    the table, and ends the line. *)
Theorem print_langs_lookup :
  (forall nm : string,
     In (Ev_stderr (" " ++ nm)) print_langs <-> lookup_lang_spec nm <> None)
  /\ print_langs =
       map (fun lang => Ev_stderr (" " ++ name lang)) lang_specs
       ++ [Ev_stderr nl]
  /\ NoDup (map name lang_specs).
Proof.
  split; [|split; [reflexivity|]].
  - intro nm. rewrite lookup_lang_spec_cases. split.
    + cbn. intros [H|[H|[H|[H|[]]]]]; try discriminate H;
        injection H as <-; cbn; discriminate.
    + intro H. cbn.
      destruct (String.eqb_spec "nasm" nm) as [E|]; [subst nm; auto|].
      destruct (String.eqb_spec "fasm" nm) as [E|]; [subst nm; auto|].
      destruct (String.eqb_spec "as" nm) as [E|]; [subst nm; auto|congruence].
  - cbn. repeat constructor; cbn; intuition discriminate.
Qed.

Lemma print_langs_lookup_witness : In (Ev_stderr " fasm") print_langs.
Proof.
  apply (proj2 (proj1 print_langs_lookup "fasm")). discriminate.
Defined.

(** ** Failures of convert and their causes *)

Lemma fprintf_outcomes (out : FILE_out) (f : format) (a : list arg) :
  ((fst (fprintf out f a) <? 0) = true
   /\ snd (fprintf out f a) = out /\ budget out = Some O)
  \/ ((fst (fprintf out f a) <? 0) = false
      /\ calls (snd (fprintf out f a)) =
           calls out ++ [{| call_fmt := f; call_args := a |}]
      /\ (budget (snd (fprintf out f a)) = None <-> budget out = None)).
Proof.
  unfold fprintf.
  destruct (budget out) as [[|k]|]; cbn [fst snd calls budget].
  - left. repeat split.
  - right. split; [apply Z.ltb_ge; lia|]. split; [reflexivity|].
    split; discriminate.
  - right. split; [apply Z.ltb_ge; lia|]. split; [reflexivity|].
    split; reflexivity.
Qed.

Section Causes.

Variable args : list string.
Variable lang : lang_spec.

Lemma convert_tail_caused (cnt : Z) (fin0 fin : FILE_in) (out : FILE_out) :
  caused fin0 out (convert_tail args lang cnt fin out).
Proof.
  unfold convert_tail, caused.
  set (id := arg_at args IN_FILENAME_IDX).
  step_fprintf fprintf_outcomes out fmt_export_size
    [AStr (glob_pre lang); AStr id; AStr (glob_post lang)] r1 out1 H1 Hc Hb.
  { subst out1. cbn [out_err ret out_after].
    repeat split; auto; try discriminate. congruence. }
  step_fprintf fprintf_outcomes out1 fmt_size_label [AStr id; AStr (diff lang); AStr id]
    r2 out2 H2 Hc2 Hb2.
  { subst out2. cbn [out_err ret out_after].
    repeat split; auto; try discriminate.
    intro Hn. apply Hb in Hn. congruence. }
  cbn [ret out_after]. repeat split; auto; discriminate.
Qed.

Lemma emit_byte_caused (b : byte) (cnt : Z) (fin0 fin : FILE_in)
  (out : FILE_out) (k : Z -> FILE_out -> convert_result) :
  (forall cnt' out', caused fin0 out' (k cnt' out')) ->
  caused fin0 out (emit_byte lang b cnt fin out k).
Proof.
  intro Hk. unfold emit_byte.
  assert (Hsep : exists f a,
    (if negb (cnt =? 0) && negb (cnt mod ELEMS_PER_LINE =? 0)
     then fprintf out fmt_sep []
     else fprintf out fmt_newline_def [AStr (def lang)]) = fprintf out f a).
  { destruct (negb (cnt =? 0) && negb (cnt mod ELEMS_PER_LINE =? 0));
      eexists; eexists; reflexivity. }
  destruct Hsep as (f & a & ->).
  step_fprintf fprintf_outcomes out f a r1 out1 H1 Hc Hb.
  { subst out1. unfold caused. cbn [out_err ret out_after].
    repeat split; auto; try discriminate. congruence. }
  step_fprintf fprintf_outcomes out1 fmt_byte [AUInt (Byte.to_N b)] r2 out2 H2 Hc2 Hb2.
  { subst out2. unfold caused. cbn [out_err ret out_after].
    repeat split; auto; try discriminate.
    intro Hn. apply Hb in Hn. congruence. }
  destruct (Hk (size_incr cnt) out2) as (Hr & Hi & Ho).
  split; [exact Hr|]. split; [exact Hi|].
  intro H. destruct (Ho H) as [Hne Hz]. split; [|exact Hz].
  intro Hn. apply Hne. apply Hb2. apply Hb. exact Hn.
Qed.

Lemma caused_more (fin : FILE_in) (o : fread_outcome) (out : FILE_out)
  (r : convert_result) :
  caused fin out r -> caused (o :: fin) out r.
Proof.
  intros (Hr & Hi & Ho). split; [exact Hr|]. split; [|exact Ho].
  intro H. right. now apply Hi.
Qed.

Lemma convert_loop_caused (fin : FILE_in) :
  forall (out : FILE_out) (b0 : byte) (cnt : Z),
  caused fin out (convert_loop args lang fin out b0 cnt).
Proof.
  induction fin as [|o rest IH]; intros out b0 cnt.
  - apply convert_tail_caused.
  - destruct o as [b|[|] [|]]; cbn [convert_loop].
    + apply emit_byte_caused. intros cnt' out'. apply caused_more, IH.
    + apply convert_tail_caused.
    + apply convert_tail_caused.
    + unfold caused. cbn [in_err ret]. repeat split; auto; try discriminate.
      intros _. left. reflexivity.
    + apply emit_byte_caused. intros cnt' out'. apply caused_more, IH.
Qed.

Lemma convert_caused (fin : FILE_in) (out : FILE_out) (b0 : byte) :
  caused fin out (convert args fin out lang b0).
Proof.
  unfold convert.
  set (id := arg_at args IN_FILENAME_IDX).
  step_fprintf fprintf_outcomes out fmt_export
    [AStr (glob_pre lang); AStr id; AStr (glob_post lang)] r1 out1 H1 Hc Hb.
  { subst out1. unfold caused. cbn [out_err ret out_after].
    repeat split; auto; try discriminate. congruence. }
  step_fprintf fprintf_outcomes out1 fmt_label [AStr id] r2 out2 H2 Hc2 Hb2.
  { subst out2. unfold caused. cbn [out_err ret out_after].
    repeat split; auto; try discriminate.
    intro Hn. apply Hb in Hn. congruence. }
  destruct (convert_loop_caused fin out2 b0 0) as (Hr & Hi & Ho).
  split; [exact Hr|]. split; [exact Hi|].
  intro H. destruct (Ho H) as [Hne Hz]. split; [|exact Hz].
  intro Hn. apply Hne. apply Hb2. apply Hb. exact Hn.
Qed.

End Causes.

(** X6: on an input that ends (a script of finitely many reads, after
    which the stream is at the end of the file), the return value of
    [convert] is 0, -1 or -2; it is -1 only when some read of the input set
    the error indicator without the end-of-file indicator, and -2 only on
    a device that can refuse a call, whose budget it then leaves used up.
    So on such an input, with a device that never fails and no read error,
    it is 0.  Nothing is said of an input that never ends, on which the
    loop goes on as long as the writes succeed. *)
Theorem convert_failures_have_causes (args : list string) (fin : FILE_in)
  (out : FILE_out) (lang : lang_spec) (b0 : byte) :
  let r := convert args fin out lang b0 in
  (ret r = 0 \/ ret r = -1 \/ ret r = -2)
  /\ (ret r = -1 -> In (NoItem false true) fin)
  /\ (ret r = -2 -> budget out <> None /\ budget (out_after r) = Some O)
  /\ (budget out = None -> ~ In (NoItem false true) fin -> ret r = 0).
Proof.
  intro r. destruct (convert_caused args lang fin out b0) as (Hr & Hi & Ho).
  fold r in Hr, Hi, Ho.
  split; [exact Hr|]. split; [exact Hi|]. split; [exact Ho|].
  intros Hn Hne. destruct Hr as [H|[H|H]]; [exact H| |].
  - elim Hne. now apply Hi.
  - destruct (Ho H) as [Hb _]. congruence.
Qed.

Lemma convert_failures_have_causes_witness :
  In (NoItem false true) (failing_file [x41; x42])
  /\ ret (convert ["btoa"; "as"; "f"] (file_of [x41; x42]) (fresh_out None)
            as_spec x00) = 0.
Proof.
  split.
  - apply (convert_failures_have_causes ["btoa"; "as"; "f"]
             (failing_file [x41; x42]) (fresh_out None) as_spec x00).
    reflexivity.
  - apply (convert_failures_have_causes ["btoa"; "as"; "f"]
             (file_of [x41; x42]) (fresh_out None) as_spec x00).
    + reflexivity.
    + cbn. intuition discriminate.
Defined.

(** ** The local byte of convert *)

Lemma convert_loop_conforming_byte (args : list string) (lang : lang_spec)
  (fin : FILE_in) (out : FILE_out) (b b' : byte) (cnt : Z) :
  conforming fin = true ->
  convert_loop args lang fin out b cnt = convert_loop args lang fin out b' cnt.
Proof.
  destruct fin as [|[x|[|] [|]] rest]; cbn [conforming forallb andb];
    intro H; try reflexivity. discriminate H.
Qed.

(** X7: on an input that follows the contract of [fread] (a read that
    delivers nothing sets the end-of-file or the error indicator), the
    result of [convert] does not depend on what its local [byte] held on
    entry: the uninitialised value is never written. *)
Theorem convert_ignores_initial_byte (args : list string) (fin : FILE_in)
  (out : FILE_out) (lang : lang_spec) (b0 b0' : byte) :
  conforming fin = true ->
  convert args fin out lang b0 = convert args fin out lang b0'.
Proof.
  intro Hc. unfold convert.
  destruct (fprintf out fmt_export _) as [r1 out1].
  destruct (r1 <? 0); [reflexivity|].
  destruct (fprintf out1 fmt_label _) as [r2 out2].
  destruct (r2 <? 0); [reflexivity|].
  now apply convert_loop_conforming_byte.
Qed.

Lemma convert_ignores_initial_byte_witness :
  convert ["btoa"; "as"; "f"] (failing_file [x41; x42]) (fresh_out None)
    as_spec x00 =
  convert ["btoa"; "as"; "f"] (failing_file [x41; x42]) (fresh_out None)
    as_spec xff.
Proof.
  apply (convert_ignores_initial_byte ["btoa"; "as"; "f"]
           (failing_file [x41; x42]) (fresh_out None) as_spec x00 xff).
  reflexivity.
Defined.

Lemma emit_byte_same (lang : lang_spec) (b : byte) (cnt : Z)
  (fin fin' : FILE_in) (out : FILE_out)
  (k k' : Z -> FILE_out -> convert_result) :
  (forall c o, same_outcome (k c o) (k' c o)) ->
  same_outcome (emit_byte lang b cnt fin out k)
               (emit_byte lang b cnt fin' out k').
Proof.
  intro Hk. unfold emit_byte.
  destruct (if negb (cnt =? 0) && negb (cnt mod ELEMS_PER_LINE =? 0)
            then fprintf out fmt_sep []
            else fprintf out fmt_newline_def [AStr (def lang)])
    as [r1 out1].
  destruct (r1 <? 0); [repeat split|].
  destruct (fprintf out1 fmt_byte _) as [r2 out2].
  destruct (r2 <? 0); [repeat split|apply Hk].
Qed.

Lemma convert_tail_same (args : list string) (lang : lang_spec) (cnt : Z)
  (fin fin' : FILE_in) (out : FILE_out) :
  same_outcome (convert_tail args lang cnt fin out)
               (convert_tail args lang cnt fin' out).
Proof.
  unfold convert_tail.
  destruct (fprintf out fmt_export_size _) as [r1 out1].
  destruct (r1 <? 0); [repeat split|].
  destruct (fprintf out1 fmt_size_label _) as [r2 out2].
  destruct (r2 <? 0); repeat split.
Qed.

Lemma convert_loop_glitch (args : list string) (lang : lang_spec)
  (b : byte) (rest : FILE_in) (pre : FILE_in) :
  forall (out : FILE_out) (b0 : byte) (cnt : Z),
  same_outcome
    (convert_loop args lang (pre ++ Item b :: NoItem false false :: rest)
       out b0 cnt)
    (convert_loop args lang (pre ++ Item b :: Item b :: rest) out b0 cnt).
Proof.
  induction pre as [|o pre IH]; intros out b0 cnt.
  - cbn [app convert_loop]. apply emit_byte_same. intros c o.
    cbn [convert_loop]. apply emit_byte_same. intros c' o'.
    repeat split.
  - destruct o as [x|[|] [|]]; cbn [app convert_loop].
    + apply emit_byte_same. intros c o. apply IH.
    + apply convert_tail_same.
    + apply convert_tail_same.
    + repeat split.
    + apply emit_byte_same. intros c o. apply IH.
Qed.

(** X8: a read that delivers nothing and sets neither indicator does not
    stop the loop: [convert] writes the byte of the read before once more
    and counts it, so its return value, count and output are those for an
    input in which that byte comes twice. *)
Theorem convert_glitch_repeats (args : list string) (lang : lang_spec)
  (pre rest : FILE_in) (b : byte) (out : FILE_out) (b0 : byte) :
  let r := convert args (pre ++ Item b :: NoItem false false :: rest)
             out lang b0 in
  let r' := convert args (pre ++ Item b :: Item b :: rest) out lang b0 in
  ret r = ret r' /\ count r = count r' /\ out_after r = out_after r'.
Proof.
  cbv zeta. unfold convert.
  destruct (fprintf out fmt_export _) as [r1 out1].
  destruct (r1 <? 0); [repeat split|].
  destruct (fprintf out1 fmt_label _) as [r2 out2].
  destruct (r2 <? 0); [repeat split|].
  apply convert_loop_glitch.
Qed.

(** ** What convert does to its streams *)

Section Advances.

Variable args : list string.
Variable lang : lang_spec.

Lemma advances_stop (fin rest : FILE_in) (o : fread_outcome)
  (out : FILE_out) (r : convert_result) :
  fin = o :: rest -> in_after r = rest ->
  (exists added, calls (out_after r) = calls out ++ added) ->
  advances fin out r.
Proof.
  intros -> Hin (added & Hc). exists [o], added.
  rewrite Hin. repeat split; [exact Hc|cbn; lia].
Qed.

Lemma convert_tail_appends (cnt : Z) (fin : FILE_in) (out : FILE_out) :
  in_after (convert_tail args lang cnt fin out) = fin
  /\ exists added,
       calls (out_after (convert_tail args lang cnt fin out)) =
       calls out ++ added.
Proof.
  rewrite convert_tail_calls. cbv zeta. cbn [in_after out_after].
  split; [reflexivity|]. rewrite write_all_closed. cbn [snd calls].
  eexists. reflexivity.
Qed.

Lemma emit_byte_advances (o : fread_outcome) (b : byte) (cnt : Z)
  (rest : FILE_in) (out : FILE_out) (k : Z -> FILE_out -> convert_result) :
  (forall cnt' out', advances rest out' (k cnt' out')) ->
  advances (o :: rest) out (emit_byte lang b cnt rest out k).
Proof.
  intro Hk. unfold emit_byte.
  assert (Hsep : exists f a,
    (if negb (cnt =? 0) && negb (cnt mod ELEMS_PER_LINE =? 0)
     then fprintf out fmt_sep []
     else fprintf out fmt_newline_def [AStr (def lang)]) = fprintf out f a
    /\ is_byte_call {| call_fmt := f; call_args := a |} = false).
  { destruct (negb (cnt =? 0) && negb (cnt mod ELEMS_PER_LINE =? 0));
      eexists; eexists; split; reflexivity. }
  destruct Hsep as (f & a & -> & Hnb).
  step_fprintf fprintf_outcomes out f a r1 out1 H1 Hc Hb.
  { apply (advances_stop _ rest o); [reflexivity|reflexivity|].
    exists []. cbn [out_err out_after]. now rewrite Hc, app_nil_r. }
  step_fprintf fprintf_outcomes out1 fmt_byte [AUInt (Byte.to_N b)]
    r2 out2 H2 Hc2 Hb2.
  { apply (advances_stop _ rest o); [reflexivity|reflexivity|].
    eexists. cbn [out_err out_after]. rewrite Hc2. exact Hc. }
  destruct (Hk (size_incr cnt) out2) as (used & added & Hu & Ha & Hl).
  exists (o :: used),
    ({| call_fmt := f; call_args := a |}
     :: {| call_fmt := fmt_byte; call_args := [AUInt (Byte.to_N b)] |}
     :: added).
  split; [cbn [app]; now f_equal|]. split.
  - rewrite Ha, Hc2, Hc, <- !app_assoc. reflexivity.
  - unfold literals in *. cbn [filter List.length]. rewrite Hnb.
    cbn [is_byte_call call_fmt fmt_byte existsb orb List.length]. lia.
Qed.

Lemma convert_loop_advances (fin : FILE_in) :
  forall (out : FILE_out) (b0 : byte) (cnt : Z),
  advances fin out (convert_loop args lang fin out b0 cnt).
Proof.
  induction fin as [|o rest IH]; intros out b0 cnt.
  - cbn [convert_loop].
    destruct (convert_tail_appends cnt [] out) as [Hi (added & Ha)].
    exists [], added. rewrite Hi. repeat split; [exact Ha|cbn; lia].
  - destruct o as [b|[|] [|]]; cbn [convert_loop].
    + apply emit_byte_advances. intros cnt' out'. apply IH.
    + destruct (convert_tail_appends cnt rest out) as [Hi Ha].
      now apply (advances_stop _ rest (NoItem true true)).
    + destruct (convert_tail_appends cnt rest out) as [Hi Ha].
      now apply (advances_stop _ rest (NoItem true false)).
    + apply (advances_stop _ rest (NoItem false true));
        [reflexivity|reflexivity|].
      exists []. cbn [in_err out_after]. now rewrite app_nil_r.
    + apply emit_byte_advances. intros cnt' out'. apply IH.
Qed.

Lemma advances_after (fin : FILE_in) (out out' : FILE_out)
  (pre : list call) (r : convert_result) :
  calls out' = calls out ++ pre -> literals pre = O ->
  advances fin out' r -> advances fin out r.
Proof.
  intros Hc Hp (used & added & Hu & Ha & Hl).
  exists used, (pre ++ added). split; [exact Hu|]. split.
  - now rewrite Ha, Hc, <- app_assoc.
  - unfold literals in *. rewrite filter_app, length_app. lia.
Qed.

Lemma convert_advances (fin : FILE_in) (out : FILE_out) (b0 : byte) :
  advances fin out (convert args fin out lang b0).
Proof.
  unfold convert.
  set (id := arg_at args IN_FILENAME_IDX).
  set (e := [AStr (glob_pre lang); AStr id; AStr (glob_post lang)]).
  step_fprintf fprintf_outcomes out fmt_export e r1 out1 H1 Hc Hb.
  { exists [], []. cbn [out_err in_after out_after app].
    rewrite Hc, app_nil_r. repeat split. cbn. lia. }
  step_fprintf fprintf_outcomes out1 fmt_label [AStr id] r2 out2 H2 Hc2 Hb2.
  { exists [], [{| call_fmt := fmt_export; call_args := e |}].
    cbn [out_err in_after out_after app]. rewrite Hc2.
    repeat split; [exact Hc|cbn; lia]. }
  apply (advances_after fin out out2
           [{| call_fmt := fmt_export; call_args := e |};
            {| call_fmt := fmt_label; call_args := [AStr id] |}]).
  - rewrite Hc2, Hc, <- app_assoc. reflexivity.
  - reflexivity.
  - apply convert_loop_advances.
Qed.

End Advances.

(** X9: [convert] only moves forward on its streams.  What it leaves of
    the input is an end part of what it was given, what was in the output
    before is still there with the new calls after it, and it never reads
    ahead: the number of reads it made is at most one more than the number
    of byte literals it wrote.  When the very first write is refused, the
    input is not touched. *)
Theorem convert_moves_forward (args : list string) (fin : FILE_in)
  (out : FILE_out) (lang : lang_spec) (b0 : byte) :
  let r := convert args fin out lang b0 in
  (exists (used : FILE_in) (added : list call),
     fin = used ++ in_after r
     /\ calls (out_after r) = calls out ++ added
     /\ (List.length used <= S (literals added))%nat)
  /\ (budget out = Some O -> in_after r = fin /\ out_after r = out).
Proof.
  intro r. split; [apply convert_advances|].
  intro Hb. subst r. unfold convert, fprintf. rewrite Hb.
  cbn. split; reflexivity.
Qed.

Lemma convert_moves_forward_witness :
  in_after (convert ["btoa"; "as"; "f"] (file_of [x41; x42])
              (fresh_out (Some O)) as_spec x00) = file_of [x41; x42].
Proof.
  apply (convert_moves_forward ["btoa"; "as"; "f"] (file_of [x41; x42])
           (fresh_out (Some O)) as_spec x00).
  reflexivity.
Defined.

(** ** Reading a fragment back *)

Lemma split_at_not_nil (sep : ascii) (s : string) : split_at sep s <> [].
Proof.
  induction s as [|c s IH]; cbn; [discriminate|].
  destruct (Ascii.eqb c sep); [discriminate|].
  destruct (split_at sep s); discriminate.
Qed.

Lemma split_at_field (sep : ascii) (a rest : string) :
  lacks sep a = true ->
  split_at sep (a ++ String sep rest) = a :: split_at sep rest.
Proof.
  unfold lacks.
  induction a as [|x a IH]; cbn [append split_at string_forall]; intro H.
  - now rewrite Ascii.eqb_refl.
  - apply andb_true_iff in H. destruct H as [Hx Ha].
    apply negb_true_iff in Hx. rewrite Hx, (IH Ha). reflexivity.
Qed.

Lemma split_at_whole (sep : ascii) (a : string) :
  lacks sep a = true -> split_at sep a = [a].
Proof.
  unfold lacks.
  induction a as [|x a IH]; cbn [split_at string_forall]; intro H.
  - reflexivity.
  - apply andb_true_iff in H. destruct H as [Hx Ha].
    apply negb_true_iff in Hx. rewrite Hx, (IH Ha). reflexivity.
Qed.

Lemma literal_fields (b : byte) :
  lacks TAB (literal b) = true
  /\ lacks TAB (literal b ++ ",") = true
  /\ parse_literal (literal b) = Some b
  /\ parse_literal (literal b ++ ",") = Some b.
Proof. destruct b; repeat split; reflexivity. Qed.

Lemma decode_continued (g : list byte) : forall b : byte,
  all_some (map parse_literal (split_at TAB (literal b ++ continued g))) =
  Some (b :: g).
Proof.
  induction g as [|c g IH]; intro b;
    destruct (literal_fields b) as (L1 & L2 & P1 & P2).
  - cbn [continued fold_right]. rewrite append_nil_r.
    rewrite split_at_whole by exact L1. cbn [map all_some]. now rewrite P1.
  - cbn [continued fold_right]. fold (continued g).
    change ("," ++ tab ++ literal c ++ continued g)%string
      with ("," ++ String TAB (literal c ++ continued g))%string.
    rewrite <- append_assoc.
    rewrite split_at_field by exact L2.
    cbn [map all_some]. rewrite P2, IH. reflexivity.
Qed.

Lemma decode_byte_line (lang : lang_spec) (g : list byte) :
  lacks TAB (def lang) = true -> g <> [] ->
  decode_line (def lang) (byte_line lang g) = Some g.
Proof.
  intros Hd Hg. destruct g as [|b g]; [congruence|].
  unfold decode_line, byte_line. rewrite concat_continued.
  change (def lang ++ tab ++ literal b ++ continued g)%string
    with (def lang ++ String TAB (literal b ++ continued g))%string.
  rewrite split_at_field by exact Hd.
  rewrite String.eqb_refl. apply decode_continued.
Qed.

Lemma groups_of_nonempty (fuel : nat) : forall bs : list byte,
  Forall (fun g => g <> []) (groups_of fuel bs).
Proof.
  induction fuel as [|fuel IH]; intro bs; [constructor|].
  destruct bs as [|b bs]; [constructor|].
  cbn [groups_of]. constructor; [|apply IH].
  cbn [firstn]. discriminate.
Qed.

Lemma groups_of_concat (fuel : nat) : forall bs : list byte,
  (List.length bs <= fuel)%nat -> List.concat (groups_of fuel bs) = bs.
Proof.
  induction fuel as [|fuel IH]; intros bs Hlen.
  - destruct bs; [reflexivity|cbn in Hlen; lia].
  - destruct bs as [|b bs']; [reflexivity|].
    change (groups_of (S fuel) (b :: bs'))
      with (firstn 8 (b :: bs') :: groups_of fuel (skipn 8 (b :: bs'))).
    remember (b :: bs') as bs eqn:Ebs.
    assert (Hpos : (1 <= List.length bs)%nat) by (subst bs; cbn; lia).
    clear Ebs b bs'.
    cbn [List.concat]. rewrite IH by (rewrite length_skipn; lia).
    apply firstn_skipn.
Qed.

Lemma decode_byte_lines (lang : lang_spec) (gs : list (list byte)) :
  lacks TAB (def lang) = true ->
  Forall (fun g => g <> []) gs ->
  all_some (map (decode_line (def lang)) (map (byte_line lang) gs)) = Some gs.
Proof.
  intro Hd. induction 1 as [|g gs Hg Hgs IH]; [reflexivity|].
  cbn [map all_some]. rewrite (decode_byte_line lang g Hd Hg), IH.
  reflexivity.
Qed.

Lemma lookup_def_lacks_tab (nm : string) (lang : lang_spec) :
  lookup_lang_spec nm = Some lang -> lacks TAB (def lang) = true.
Proof.
  intro H. apply lookup_lang_spec_In in H. destruct H as [Hin _].
  cbn in Hin. destruct Hin as [<-|[<-|[<-|[]]]]; reflexivity.
Qed.

(** X10: the fragment holds the input.  For a dialect of the table and an
    identifier without a line feed, reading the directive lines of the text
    written by a successful conversion back (the keyword, then after each
    tab a literal [0x..] taken as a hexadecimal number) gives the bytes of
    the input, in order. *)
Theorem fragment_round_trip (nm : string) (lang : lang_spec)
  (args : list string) (bs : list byte) (b0 : byte) :
  lookup_lang_spec nm = Some lang ->
  no_lf (arg_at args IN_FILENAME_IDX) = true ->
  decode_fragment (def lang)
    (contents (out_after (convert args (file_of bs) (fresh_out None)
                            lang b0))) = Some bs.
Proof.
  intros Hl Hid.
  destruct (convert_whole_file args lang bs b0) as (_ & Hcalls & _).
  unfold decode_fragment, contents. rewrite Hcalls.
  rewrite (fragment_lines lang _ bs (lookup_clean nm lang Hl) Hid).
  set (bl := byte_lines lang bs).
  match goal with
  | |- context [skipn 3 (?h ++ bl ++ ?t)] =>
      change (skipn 3 (h ++ bl ++ t)) with (bl ++ t)
  end.
  rewrite !length_app. cbn [List.length].
  replace (3 + (List.length bl + 4) - 7)%nat with (List.length bl) by lia.
  rewrite firstn_app, Nat.sub_diag, firstn_all. cbn [firstn].
  rewrite app_nil_r. subst bl. unfold byte_lines.
  rewrite decode_byte_lines;
    [|exact (lookup_def_lacks_tab nm lang Hl)|apply groups_of_nonempty].
  cbn [option_map]. f_equal. apply groups_of_concat, Nat.le_refl.
Qed.

Lemma fragment_round_trip_witness :
  decode_fragment ".byte"
    (contents (out_after (convert ["btoa"; "as"; "blob"]
       (file_of [x00; x7f; x80; xff; x0a; x10; x01; x02; xfe])
       (fresh_out None) as_spec x00)))
  = Some [x00; x7f; x80; xff; x0a; x10; x01; x02; xfe].
Proof.
  apply (fragment_round_trip "as" as_spec ["btoa"; "as"; "blob"]
           [x00; x7f; x80; xff; x0a; x10; x01; x02; xfe] x00);
    reflexivity.
Defined.

(** ** Runs of main that end before the conversion *)

(** X11: when [argv] holds the program name and has fewer than three or
    more than four entries, or names a dialect that is not in the table,
    [main] ends with
    [exit(1)] after its error message, and has opened no file, rewritten no
    argument and converted nothing.  For a wrong count the help text, with
    the program name and the dialects, comes before the message. *)
Theorem main_rejects_before_opening (e : env) (argv : list string) :
  argv <> [] ->
  argc_ok argv = false
  \/ lookup_lang_spec (arg_at argv ARCH_NAME_IDX) = None ->
  final (main e argv) = Exited 1
  /\ (forall path mode ok, ~ In (Ev_fopen path mode ok) (trace (main e argv)))
  /\ (forall idx s, ~ In (Ev_store idx s) (trace (main e argv)))
  /\ (forall a r, ~ In (Ev_convert a r) (trace (main e argv)))
  /\ (argc_ok argv = false ->
      trace (main e argv) =
        banner :: usage (arg_at argv PROG_FILENAME_IDX)
        ++ [Ev_stderr ("Error: " ++ "At least two parameters are necessary."
                       ++ nl);
            Ev_exit 1])
  /\ (argc_ok argv = true ->
      trace (main e argv) =
        [banner;
         Ev_stderr ("Error: " ++ "Non-supported assembly syntax." ++ nl);
         Ev_exit 1]).
Proof.
  intros _ H. unfold argc_ok in *.
  split_run; tests_to_props;
    try (exfalso; destruct H as [H|H];
         [apply andb_false_iff in H;
          destruct H as [H|H]; apply Nat.leb_gt in H; lia
         |congruence]);
    (split; [reflexivity|]);
    (split; [intros path mode ok Hin; in_events Hin|]);
    (split; [intros idx s Hin; in_events Hin|]);
    (split; [intros a r Hin; in_events Hin|]);
    (split; [intro Hc|intro Hc]); try reflexivity;
    exfalso;
    first [ apply andb_false_iff in Hc;
            destruct Hc as [Hc|Hc]; apply Nat.leb_gt in Hc; lia
          | apply andb_true_iff in Hc; destruct Hc as [Hc1 Hc2];
            apply Nat.leb_le in Hc1, Hc2;
            match goal with
            | Hb : (_ <? _) || (_ >? _) = true |- _ =>
                apply orb_true_iff in Hb; destruct Hb as [Hb|Hb];
                [apply Z.ltb_lt in Hb|rewrite Z.gtb_ltb in Hb;
                                      apply Z.ltb_lt in Hb]; lia
            end ].
Qed.

Lemma main_rejects_before_opening_witness :
  final (main plain_env ["btoa"; "tasm"; "in.bin"]) = Exited 1
  /\ final (main plain_env ["btoa"; "nasm"]) = Exited 1.
Proof.
  split.
  - apply (main_rejects_before_opening plain_env ["btoa"; "tasm"; "in.bin"]);
      [discriminate|right; reflexivity].
  - apply (main_rejects_before_opening plain_env ["btoa"; "nasm"]);
      [discriminate|left; reflexivity].
Defined.

Lemma argc_ok_tests (argv : list string) :
  argc_ok argv = true ->
  (Z.of_nat (List.length argv) <? 3) || (Z.of_nat (List.length argv) >? 4)
  = false.
Proof.
  unfold argc_ok. intro H. apply andb_true_iff in H. destruct H as [H1 H2].
  apply Nat.leb_le in H1, H2. apply orb_false_iff. split.
  - apply Z.ltb_ge. lia.
  - rewrite Z.gtb_ltb. apply Z.ltb_ge. lia.
Qed.

(** X12: when the input file cannot be opened, [main] ends with [exit(1)]
    after its message and has not opened the output file, also when one
    was named: a missing input leaves an existing output file as it is. *)
Theorem main_input_missing (e : env) (argv : list string)
  (lang : lang_spec) :
  argc_ok argv = true ->
  lookup_lang_spec (arg_at argv ARCH_NAME_IDX) = Some lang ->
  open_r e (arg_at argv IN_FILENAME_IDX) = None ->
  final (main e argv) = Exited 1
  /\ trace (main e argv) =
       [banner;
        Ev_fopen (arg_at argv IN_FILENAME_IDX) "r" false;
        Ev_stderr ("Error: " ++ "Unable to open the input file." ++ nl);
        Ev_exit 1]
  /\ (forall path ok, ~ In (Ev_fopen path "w" ok) (trace (main e argv))).
Proof.
  intros Hc Hl Ho. unfold main.
  rewrite (argc_ok_tests argv Hc), Hl, Ho. unfold panic. cbn [trace final app].
  split; [reflexivity|]. split; [reflexivity|].
  intros path ok Hin. in_events Hin.
Qed.

Lemma main_input_missing_witness :
  let e := {| open_r := fun _ => None;
              open_w := fun _ => Some (fresh_out None);
              stdout0 := fresh_out None; byte0 := x00 |} in
  final (main e ["btoa"; "nasm"; "gone.bin"; "out.asm"]) = Exited 1.
Proof.
  intro e.
  apply (main_input_missing e ["btoa"; "nasm"; "gone.bin"; "out.asm"]
           nasm_spec); reflexivity.
Defined.

(** ** How a run of main ends *)

(** X13: [main] ends with [exit(1)], with [return 0], or in the undefined
    call; it never ends with another status.  It returns 0 only after a
    conversion that returned 0, and then has reported the count of that
    conversion on [stderr]; after a conversion that returned -1 or -2 it
    ends with [exit(1)] and the message for a read or a write failure, the
    latter with the warning that the output is inconsistent. *)
Theorem main_exit_status (e : env) (argv : list string) :
  (forall s, final (main e argv) = Exited s -> s = 1)
  /\ (forall s,
        final (main e argv) = Returned s ->
        s = 0
        /\ exists a r,
             In (Ev_convert a r) (trace (main e argv)) /\ ret r = 0)
  /\ (forall a r,
        In (Ev_convert a r) (trace (main e argv)) ->
        (ret r = 0 ->
         final (main e argv) = Returned 0
         /\ In (Ev_stderr (render_lu (count r)
                           ++ " bytes have been converted." ++ nl))
               (trace (main e argv)))
        /\ (ret r = -1 ->
            final (main e argv) = Exited 1
            /\ In (Ev_stderr ("Error: " ++ "Unable to read the input file."
                              ++ nl))
                  (trace (main e argv)))
        /\ (ret r = -2 ->
            final (main e argv) = Exited 1
            /\ In (Ev_stderr
                     ("Error: "
                      ++ "Unable to write the output file. WARNING: Output data is inconsistent!"
                      ++ nl))
                  (trace (main e argv)))).
Proof.
  split; [|split].
  - split_run; intros s H; congruence.
  - split_run; intros s H; try discriminate H; injection H as <-;
      (split; [reflexivity|]); tests_to_props;
      match goal with
      | H1 : ret (convert ?a ?f ?o ?l ?b) <> -1 |- _ =>
          exists a, (convert a f o l b);
          (split; [find_event|]);
          destruct (convert_caused a l f o b) as ([Hr|[Hr|Hr]] & _);
          [exact Hr|contradiction|contradiction]
      end.
  - split_run; intros a r H; in_events H; subst; tests_to_props;
      (split; [|split]); intro Hr;
      try (exfalso; congruence);
      (split; [reflexivity|find_event]).
Qed.

Lemma main_exit_status_witness :
  final (main plain_env ["btoa"; "nasm"; "in.bin"]) = Returned 0
  /\ In (Ev_stderr ("1 bytes have been converted." ++ nl))
        (trace (main plain_env ["btoa"; "nasm"; "in.bin"])).
Proof.
  set (a := ["btoa"; "nasm"; "in_bin"]).
  set (r := convert a (file_of [x41]) (fresh_out None) nasm_spec x00).
  assert (H : In (Ev_convert a r)
                 (trace (main plain_env ["btoa"; "nasm"; "in.bin"])))
    by (vm_compute; auto 10).
  exact (proj1 (proj2 (proj2
           (main_exit_status plain_env ["btoa"; "nasm"; "in.bin"]))
           a r H) eq_refl).
Defined.

(** X14: the undefined call is reached in exactly one situation: four
    arguments, a dialect of the table, an input file that opens and an
    output file that cannot be created. *)
Theorem main_undefined_iff (e : env) (argv : list string) :
  final (main e argv) = Undefined <->
  List.length argv = 4%nat
  /\ lookup_lang_spec (arg_at argv ARCH_NAME_IDX) <> None
  /\ open_r e (arg_at argv IN_FILENAME_IDX) <> None
  /\ open_w e (arg_at argv OUT_FILENAME_IDX) = None.
Proof.
  split.
  - split_run; intro H; try discriminate H; tests_to_props.
    repeat split; try discriminate. lia.
  - intros (Hlen & Hl & Hi & Ho).
    destruct (lookup_lang_spec (arg_at argv ARCH_NAME_IDX)) as [lang|] eqn:El;
      [|congruence].
    destruct (open_r e (arg_at argv IN_FILENAME_IDX)) as [fin|] eqn:Ei;
      [|congruence].
    now destruct (main_output_open_failure_general e argv lang fin
                    Hlen El Ei Ho).
Qed.

Lemma main_undefined_iff_witness :
  final (main no_output_env ["btoa"; "nasm"; "in.bin"; "/missing/out.asm"])
  = Undefined.
Proof.
  apply (proj2 (main_undefined_iff no_output_env
                  ["btoa"; "nasm"; "in.bin"; "/missing/out.asm"])).
  repeat split; discriminate.
Defined.

(** X15: in every run that does not reach the undefined call, [main]
    closes each stream it opened exactly once and closes nothing else: as
    many [fclose] of the input as successful [fopen] for reading, as many
    [fclose] of the output as successful [fopen] for writing; [stdout] is
    never closed. *)
Theorem main_closes_what_it_opened (e : env) (argv : list string) :
  final (main e argv) <> Undefined ->
  count_events is_close_in (trace (main e argv)) =
    count_events is_open_in (trace (main e argv))
  /\ count_events is_close_out (trace (main e argv)) =
       count_events is_open_out (trace (main e argv))
  /\ (count_events is_open_in (trace (main e argv)) <= 1)%nat
  /\ (count_events is_open_out (trace (main e argv)) <= 1)%nat
  /\ (List.length argv <> 4%nat ->
      count_events is_close_out (trace (main e argv)) = O).
Proof.
  split_run; intro Hd; try congruence; tests_to_props;
    unfold count_events;
    rewrite ?filter_app, ?length_app;
    cbn [filter usage print_langs map lang_specs app List.length
         is_close_in is_open_in is_close_out is_open_out
         String.eqb Ascii.eqb Bool.eqb andb];
    repeat split; try lia.
Qed.

Lemma main_closes_what_it_opened_witness :
  count_events is_close_out
    (trace (main plain_env ["btoa"; "as"; "in.bin"; "out.s"])) = 1%nat
  /\ count_events is_close_in
       (trace (main plain_env ["btoa"; "as"; "in.bin"; "out.s"])) = 1%nat.
Proof.
  assert (Hd : final (main plain_env ["btoa"; "as"; "in.bin"; "out.s"])
               <> Undefined) by (vm_compute; discriminate).
  destruct (main_closes_what_it_opened plain_env
              ["btoa"; "as"; "in.bin"; "out.s"] Hd) as (H1 & H2 & _).
  split; [exact H2|exact H1].
Defined.

(** ** A whole run *)




(** ** The count after a refused write *)

Lemma literals_firstn_body (lang : lang_spec) (bs : list byte) :
  forall (i k : nat),
  literals (firstn k (body_calls lang i bs)) =
  Nat.min (List.length bs) (k / 2).
Proof.
  induction bs as [|b bs IH]; intros i k.
  - cbn [body_calls List.length]. now rewrite firstn_nil.
  - destruct k as [|[|k]]; cbn [body_calls firstn List.length].
    + reflexivity.
    + change (firstn 0 (byte_call b :: body_calls lang (S i) bs))
        with (@nil call).
      rewrite literals_sep. reflexivity.
    + change (sep_call lang (Z.of_nat i) :: byte_call b
              :: firstn k (body_calls lang (S i) bs))
        with ([sep_call lang (Z.of_nat i)] ++ [byte_call b]
              ++ firstn k (body_calls lang (S i) bs)).
      rewrite !literals_app, literals_sep, IH.
      change (literals [byte_call b]) with 1%nat.
      replace (S (S k) / 2)%nat with (S (k / 2)) by lia. lia.
Qed.

Lemma literals_firstn_planned (lang : lang_spec) (id : string)
  (bs : list byte) (tail : FILE_in) (q : nat) :
  literals (firstn q (planned_calls lang id bs tail)) =
  Nat.min (List.length bs) ((q - 2) / 2).
Proof.
  assert (Hh : forall rest,
    literals (firstn q (header_calls lang id ++ rest)) =
    literals (firstn (q - 2) rest)).
  { intro rest. destruct q as [|[|q]]; try reflexivity.
    cbn [header_calls app firstn Nat.sub]. now rewrite Nat.sub_0_r. }
  unfold planned_calls, truncated_calls, fragment_calls.
  destruct (at_error tail); rewrite Hh.
  - apply literals_firstn_body.
  - rewrite firstn_app, literals_app, literals_footer_prefix, Nat.add_0_r.
    apply literals_firstn_body.
Qed.

(** X17: the count after a write failure.  When the device refuses the
    call number [q + 1] while the bytes [bs] are converted, [convert]
    returns -2 and the count is the number of bytes whose separator and
    literal are both among the [q] calls accepted: none while the two
    opening lines are written, then one for every two calls, at most the
    number of bytes. *)
Theorem convert_count_after_refusal (args : list string) (lang : lang_spec)
  (bs : list byte) (tail : FILE_in) (q : nat) (b0 : byte) :
  terminal tail = true ->
  Z.of_nat (List.length bs) < size_modulus ->
  (q < List.length
         (planned_calls lang (arg_at args IN_FILENAME_IDX) bs tail))%nat ->
  let r := convert args (file_of bs ++ tail) (fresh_out (Some q)) lang b0 in
  ret r = -2
  /\ count r = Z.of_nat (Nat.min (List.length bs) ((q - 2) / 2)).
Proof.
  intros Ht Hlen Hq r.
  destruct (convert_on_file args lang bs tail (fresh_out (Some q)) b0 Ht)
    as (Ho & Hr & _).
  fold (file_of bs) in Ho, Hr. fold r in Ho, Hr.
  rewrite write_all_closed in Ho, Hr.
  cbn [fst snd fresh_out budget calls app enough accepted] in Ho, Hr.
  replace (_ <=? q)%nat with false in Hr
    by (symmetry; apply Nat.leb_gt; exact Hq).
  rewrite Nat.min_l in Ho by lia.
  split; [exact Hr|].
  destruct (convert_counts args lang (file_of bs ++ tail)
              (fresh_out (Some q)) b0) as (added & Hc & Hn & _).
  fold r in Hc, Hn. rewrite Ho in Hc. cbn [calls fresh_out app] in Hc.
  subst added. rewrite Hn, literals_firstn_planned. cbn [Nat.add].
  apply Z.mod_small. lia.
Qed.

Lemma convert_count_after_refusal_witness :
  count (convert ["btoa"; "nasm"; "blob"] (file_of [x41; x42; x43] ++ [])
           (fresh_out (Some 7%nat)) nasm_spec x00) = 2.
Proof.
  apply (convert_count_after_refusal ["btoa"; "nasm"; "blob"] nasm_spec
           [x41; x42; x43] [] 7 x00); [reflexivity|reflexivity|].
  vm_compute. lia.
Defined.
